(** * The cfile read path: framing, bounds-checked block reads, index descent
      and ordinal seek (src/cfile/cfile_reader.cc).

    The reader is embedded as pure functions over explicit state.  A failed
    CHECK aborts the process: it is the [Fatal] outcome.  A returned [Status]
    is the [Return] outcome.  The collaborators of the reader (the random
    access file, the protobuf messages, the index block reader, the index
    tree cursor, the integer block decoder) are interfaces: type classes
    whose operations the reader calls. *)

From Stdlib Require Import ZArith String List Bool Lia.
From Stdlib.Strings Require Import Byte.
Import ListNotations.
Local Open Scope string_scope.
Local Open Scope list_scope.
Local Open Scope Z_scope.

Set Implicit Arguments.

(** ** Machine integers *)

Definition wrap32 (x : Z) : Z := x mod 2 ^ 32.
Definition wrap64 (x : Z) : Z := x mod 2 ^ 64.

Definition byteZ (b : byte) : Z := Z.of_N (Byte.to_N b).

(** ** Status (util/status.h) and fatal CHECK failures (glog) *)

Inductive Status : Type :=
| OK
| NotFound (msg : string)
| Corruption (msg : string)
| NotSupported (msg : string)
| InvalidArgument (msg : string)
| IOError (msg : string).

Definition ok (s : Status) : bool :=
  match s with OK => true | _ => false end.

Definition IsCorruption (s : Status) : bool :=
  match s with Corruption _ => true | _ => false end.

Definition IsIOError (s : Status) : bool :=
  match s with IOError _ => true | _ => false end.

Definition IsNotFound (s : Status) : bool :=
  match s with NotFound _ => true | _ => false end.

(** The CHECK and DCHECK sites of cfile_reader.cc, and the dereference of an
    unset scoped pointer. *)
Inductive Fault : Type :=
| ShouldBeUninitialized   (* Init:               CHECK(state_ == kUninitialized) *)
| BadStateHeader          (* ReadAndParseHeader: CHECK(state_ == kUninitialized) *)
| BadStateFooter          (* ReadAndParseFooter: CHECK(state_ == kUninitialized) *)
| FileTooShort            (* ReadAndParseFooter: CHECK(file_size_ > 24) *)
| BadStateReadBlock       (* ReadBlock:          CHECK(state_ == kInitialized) *)
| BadOffset               (* ReadBlock:          CHECK(offset > 0 && offset + size < file_size_) *)
| MustInitFirst           (* SearchPosition:     CHECK(state_ == kInitialized) *)
| NotSeeked               (* GetCurrentOrdinal:  CHECK(seeked_) *)
| GotWrongDataBlock       (* SeekToOrdinal:      first DCHECK *)
| FailedSeek              (* SeekToOrdinal:      second DCHECK *)
| NullPointer.            (* operator-> on an unset scoped pointer *)

Inductive Outcome (A : Type) : Type :=
| Fatal (f : Fault)
| Return (a : A).
Arguments Fatal {A} f.
Arguments Return {A} a.

(** What a function with an out-parameter hands back: the value written on
    success, the status otherwise. *)
Inductive Result (A : Type) : Type :=
| Success (a : A)
| Failure (s : Status).
Arguments Success {A} a.
Arguments Failure {A} s.

Definition bind {A B : Type} (m : Outcome A) (k : A -> Outcome B) : Outcome B :=
  match m with
  | Fatal f => Fatal f
  | Return a => k a
  end.

Definition CHECK (cond : bool) (f : Fault) : Outcome unit :=
  if cond then Return tt else Fatal f.

(** DCHECK is CHECK in a debug build and nothing when NDEBUG is defined. *)
Definition DCHECK (ndebug : bool) (cond : bool) (f : Fault) : Outcome unit :=
  if ndebug then Return tt else CHECK cond f.

Notation "x <- m ;; k" := (bind m (fun x => k))
  (at level 61, m at next level, right associativity).
Notation "m ;;; k" := (bind m (fun _ => k))
  (at level 61, right associativity).

(** ** Framing codec *)

Definition kMagicAndLengthSize : Z := 12.
Definition kMaxHeaderFooterPBSize : Z := 64 * 1024.

(** The constants of cfile.h, which is not part of the sources at hand. *)
Class CFileConstants : Type := {
  kMagicString : list byte;
  kPositionalIndexIdentifier : string
}.

(** memcmp over the first [n] bytes; a byte past the end of a buffer reads
    as zero here (the callers stay inside both buffers when the magic has
    eight bytes). *)
Fixpoint memcmp (a b : list byte) (n : nat) : Z :=
  match n with
  | O => 0
  | S n' =>
      let x := hd x00 a in
      let y := hd x00 b in
      if Byte.eqb x y then memcmp (tl a) (tl b) n'
      else byteZ x - byteZ y
  end.

(** Modelled from the spec: DecodeFixed32 of util/coding.h, which is not part
    of the sources at hand; it decodes four bytes as a little-endian
    unsigned 32-bit integer. *)
Definition DecodeFixed32 (p : list byte) : Z :=
  Z.lor (Z.lor (Z.lor (byteZ (nth 0 p x00))
                      (Z.shiftl (byteZ (nth 1 p x00)) 8))
               (Z.shiftl (byteZ (nth 2 p x00)) 16))
        (Z.shiftl (byteZ (nth 3 p x00)) 24).

Section Framing.
Context {consts : CFileConstants}.

(** [parsed_len] is the out-parameter: its value before the call comes
    in, its value after the call goes out with the status.  It is written
    only once size and magic have been accepted. *)
Definition ParseMagicAndLength (data : list byte) (parsed_len : Z)
  : Status * Z :=
  if negb (Z.of_nat (length data) =? kMagicAndLengthSize) then
    (Corruption "Bad size data", parsed_len)
  else if negb (memcmp kMagicString data (length kMagicString) =? 0) then
    (Corruption "bad magic", parsed_len)
  else
    let parsed_len := DecodeFixed32 (skipn (length kMagicString) data) in
    if (parsed_len <=? 0) || (parsed_len >? kMaxHeaderFooterPBSize) then
      (Corruption "invalid data size", parsed_len)
    else
      (OK, parsed_len).
End Framing.

(** ** Collaborators *)

(** util/env.h, RandomAccessFile::Read(offset, n, &slice, scratch): the
    status, and the bytes the slice views afterwards.  The file is
    immutable, so a read is a function of the file, the offset and the
    length. *)
Class RandomAccessFile (F : Type) : Type :=
  Read : F -> Z -> Z -> Status * list byte.

(** A protobuf message type: a freshly constructed message, and
    ParseFromArray(data, size) on a fresh message, which says whether the
    parse succeeded and leaves the message as far as it got. *)
Class Message (M : Type) : Type := {
  New : M;
  ParseFromArray : list byte -> Z -> bool * M
}.

(** cfile.proto: the parts of the footer that the reader looks at. *)
Record BlockPointerPB : Type := {
  pb_offset : Z;   (* uint64 *)
  pb_size : Z      (* uint32 *)
}.

Record BTreeMetaPB : Type := { identifier : string }.

Record BTreeInfoPB : Type := {
  metadata : BTreeMetaPB;
  root_block : BlockPointerPB
}.

Class FooterMessage (M : Type) : Type := {
  footer_is_message :: Message M;
  btrees : M -> list BTreeInfoPB
}.

(** block_pointer.h: an (offset, size) pair; [offset ()] is a uint64_t and
    [size ()] a uint32_t. *)
Record BlockPointer : Type := {
  offset : Z;
  size : Z
}.

Definition BlockPointer_of_pb (pb : BlockPointerPB) : BlockPointer :=
  {| offset := pb_offset pb; size := pb_size pb |}.

(** A view over the bytes of one block.  The shared array that keeps the
    bytes alive is not modelled: nothing writes to it after construction. *)
Record BlockData : Type := { slice : list byte }.

(** index_block.h, IndexBlockReader<KeyType>: constructed over a slice,
    then parsed; Search writes a block pointer and the key found. *)
Class IndexBlockReader (K B : Type) : Type := {
  NewIndexBlockReader : list byte -> B;
  idx_Parse : B -> Status * B;
  idx_Search : B -> K -> Status * (BlockPointer * K);
  idx_IsLeaf : B -> bool
}.

(** index_btree.h, IndexTreeIterator<uint32_t>: a cursor over the
    positional index of a reader [R]. *)
Class IndexTreeIterator (R C : Type) : Type := {
  NewIndexTreeIterator : R -> BlockPointer -> C;
  SeekAtOrBefore : C -> Z -> Status * C;
  GetCurrentBlockPointer : C -> BlockPointer
}.

(** IntBlockDecoder: the decoder of one positional data block.
    [sum_bits] is the width of the unsigned type in which the expression
    [ordinal_pos () + Count ()] is evaluated; the declarations of the two
    accessors fix it (32 or 64). *)
Class IntBlockDecoder (D : Type) : Type := {
  NewIntBlockDecoder : list byte -> D;
  ParseHeader : D -> Status * D;
  ordinal_pos : D -> Z;
  Count : D -> Z;
  SeekToPositionInBlock : D -> Z -> D;
  sum_bits : Z
}.

(** Whether the translation unit is compiled with NDEBUG. *)
Class Build : Type := NDEBUG : bool.

(** ** CFileReader *)

Inductive State : Type := kUninitialized | kInitialized.

Definition State_eqb (a b : State) : bool :=
  match a, b with
  | kUninitialized, kUninitialized => true
  | kInitialized, kInitialized => true
  | _, _ => false
  end.

Section Reader.
Context {consts : CFileConstants}.
Context {F HeaderPB FooterPB : Type}.
Context {file_if : RandomAccessFile F}.
Context {header_if : Message HeaderPB}.
Context {footer_if : FooterMessage FooterPB}.

Record CFileReader : Type := {
  file_ : F;
  file_size_ : Z;                  (* uint64_t *)
  state_ : State;
  header_ : option HeaderPB;       (* scoped pointer, unset at first *)
  footer_ : option FooterPB
}.

Definition set_state (r : CFileReader) (s : State) : CFileReader :=
  {| file_ := file_ r; file_size_ := file_size_ r; state_ := s;
     header_ := header_ r; footer_ := footer_ r |}.

Definition set_header (r : CFileReader) (h : HeaderPB) : CFileReader :=
  {| file_ := file_ r; file_size_ := file_size_ r; state_ := state_ r;
     header_ := Some h; footer_ := footer_ r |}.

Definition set_footer (r : CFileReader) (f : FooterPB) : CFileReader :=
  {| file_ := file_ r; file_size_ := file_size_ r; state_ := state_ r;
     header_ := header_ r; footer_ := Some f |}.

(** Modelled from the spec: the constructor of CFileReader, declared in
    cfile_reader.h, which is not part of the sources at hand; the reader is
    created uninitialized. *)
Definition NewCFileReader (file : F) (file_size : Z) : CFileReader :=
  {| file_ := file; file_size_ := file_size; state_ := kUninitialized;
     header_ := None; footer_ := None |}.

(** [len] is the out-parameter, passed on to [ParseMagicAndLength]. *)
Definition ReadMagicAndLength (r : CFileReader) (off : Z) (len : Z)
  : Status * Z :=
  let (st, slice) := Read (file_ r) off kMagicAndLengthSize in
  if negb (ok st) then (st, len)
  else ParseMagicAndLength slice len.

(** [header_size] is what the uninitialised local holds on entry.  The
    parser is handed the bytes of the slice.  When the payload read comes
    back short the source still parses [header_size] bytes from the start
    of the slice, the last of them from past its end: the embedding does
    not follow it there, and what it says of the parse holds for reads
    that bring all the bytes asked for.  The stack array that the source
    sizes by [header_size] is not modelled. *)
Definition ReadAndParseHeader (header_size : Z) (r : CFileReader)
  : Outcome (Status * CFileReader) :=
  CHECK (State_eqb (state_ r) kUninitialized) BadStateHeader ;;;
  let (st, header_size) := ReadMagicAndLength r 0 header_size in
  if negb (ok st) then Return (st, r) else
  let r := set_header r New in
  let (st, header_slice) := Read (file_ r) kMagicAndLengthSize header_size in
  if negb (ok st) then Return (st, r) else
  let (parsed, h) := ParseFromArray header_slice header_size in
  let r := set_header r h in
  if negb parsed then Return (Corruption "Invalid cfile pb header", r)
  else Return (OK, r).

(** [footer_size] is what the uninitialised local holds on entry.  The
    status of [ReadMagicAndLength] is dropped, as in the source.  As for
    the header, the parser is handed the bytes of the slice, which is what
    the source parses when the read is not short; and the stack array that
    the source sizes by [footer_size], whatever that holds, is not
    modelled: where the source runs out of stack the embedding goes on. *)
Definition ReadAndParseFooter (footer_size : Z) (r : CFileReader)
  : Outcome (Status * CFileReader) :=
  CHECK (State_eqb (state_ r) kUninitialized) BadStateFooter ;;;
  CHECK (file_size_ r >? kMagicAndLengthSize * 2) FileTooShort ;;;
  let (_, footer_size) :=
    ReadMagicAndLength r (file_size_ r - kMagicAndLengthSize) footer_size in
  let r := set_footer r New in
  let off := wrap64 (file_size_ r - kMagicAndLengthSize - footer_size) in
  let (st, footer_slice) := Read (file_ r) off footer_size in
  if negb (ok st) then Return (st, r) else
  let (parsed, f) := ParseFromArray footer_slice footer_size in
  let r := set_footer r f in
  if negb parsed then Return (Corruption "Invalid cfile pb footer", r)
  else Return (OK, r).

Definition Init (header_size footer_size : Z) (r : CFileReader)
  : Outcome (Status * CFileReader) :=
  CHECK (State_eqb (state_ r) kUninitialized) ShouldBeUninitialized ;;;
  hr <- ReadAndParseHeader header_size r ;;
  let (st, r) := hr : Status * CFileReader in
  if negb (ok st) then Return (st, r) else
  fr <- ReadAndParseFooter footer_size r ;;
  let (st, r) := fr : Status * CFileReader in
  if negb (ok st) then Return (st, r) else
  Return (OK, set_state r kInitialized).

Definition ReadBlock (r : CFileReader) (ptr : BlockPointer)
  : Outcome (Result BlockData) :=
  CHECK (State_eqb (state_ r) kInitialized) BadStateReadBlock ;;;
  CHECK ((offset ptr >? 0) &&
         (wrap64 (offset ptr + size ptr) <? file_size_ r)) BadOffset ;;;
  let (st, s) := Read (file_ r) (offset ptr) (size ptr) in
  if negb (ok st) then Return (Failure st) else
  if negb (Z.of_nat (length s) =? size ptr) then
    Return (Failure (IOError "Could not read full block length"))
  else Return (Success {| slice := s |}).

(** The BOOST_FOREACH loop of GetIndexRootBlock. *)
Fixpoint GetIndexRootBlock_loop (infos : list BTreeInfoPB)
  (id : string) : Result BlockPointer :=
  match infos with
  | [] => Failure (NotFound "no such index")
  | info :: rest =>
      if String.eqb (identifier (metadata info)) id then
        Success (BlockPointer_of_pb (root_block info))
      else GetIndexRootBlock_loop rest id
  end.

Definition GetIndexRootBlock (r : CFileReader) (id : string)
  : Outcome (Result BlockPointer) :=
  match footer_ r with
  | None => Fatal NullPointer
  | Some f => Return (GetIndexRootBlock_loop (btrees f) id)
  end.

(** *** Recursive index descent *)

Section Search.
Context {K B : Type} {index_if : IndexBlockReader K B}.

(** The recursion follows pointers read from the file, so it is bounded
    by [fuel]; [None] says the bound was reached. *)
Fixpoint SearchDownward (fuel : nat) (reader : CFileReader)
  (search_key : K) (in_block : BlockPointer)
  : option (Outcome (Result (BlockPointer * K))) :=
  match fuel with
  | O => None
  | S fuel' =>
      match ReadBlock reader in_block with
      | Fatal f => Some (Fatal f)
      | Return (Failure st) => Some (Return (Failure st))
      | Return (Success data) =>
          let (st, idx_reader) :=
            idx_Parse (NewIndexBlockReader (slice data)) in
          if negb (ok st) then Some (Return (Failure st)) else
          let '(st, (result, ret_key)) :=
            idx_Search idx_reader search_key in
          if negb (ok st) then Some (Return (Failure st)) else
          if idx_IsLeaf idx_reader then
            Some (Return (Success (result, ret_key)))
          else SearchDownward fuel' reader search_key result
      end
  end.

Definition SearchPosition (fuel : nat) (r : CFileReader) (pos : K)
  : option (Outcome (Result (BlockPointer * K))) :=
  if negb (State_eqb (state_ r) kInitialized) then
    Some (Fatal MustInitFirst)
  else
    match GetIndexRootBlock r kPositionalIndexIdentifier with
    | Fatal f => Some (Fatal f)
    | Return (Failure st) => Some (Return (Failure st))
    | Return (Success posidx_root) =>
        SearchDownward fuel r pos posidx_root
    end.
End Search.

(** *** CFileIterator *)

Section Iterator.
Context {C D : Type}.
Context {cursor_if : IndexTreeIterator CFileReader C}.
Context {decoder_if : IntBlockDecoder D}.
Context {build : Build}.

(** [reader_] is a pointer to a reader that outlives the iterator; the
    reader does not change once initialized, so its value stands for
    it. *)
Record CFileIterator : Type := {
  reader_ : CFileReader;
  idx_iter_ : C;
  dblk_data_ : BlockData;
  dblk_ : option D;
  seeked_ : bool
}.

Definition NewCFileIterator (reader : CFileReader)
  (posidx_root : BlockPointer) : CFileIterator :=
  {| reader_ := reader;
     idx_iter_ := NewIndexTreeIterator reader posidx_root;
     dblk_data_ := {| slice := [] |};
     dblk_ := None;
     seeked_ := false |}.

Definition NewIteratorByPos (r : CFileReader)
  : Outcome (Result CFileIterator) :=
  res <- GetIndexRootBlock r kPositionalIndexIdentifier ;;
  match res with
  | Failure st => Return (Failure st)
  | Success posidx_root =>
      Return (Success (NewCFileIterator r posidx_root))
  end.

Definition set_seeked (it : CFileIterator) (b : bool) : CFileIterator :=
  {| reader_ := reader_ it; idx_iter_ := idx_iter_ it;
     dblk_data_ := dblk_data_ it; dblk_ := dblk_ it; seeked_ := b |}.

Definition set_idx_iter (it : CFileIterator) (c : C) : CFileIterator :=
  {| reader_ := reader_ it; idx_iter_ := c;
     dblk_data_ := dblk_data_ it; dblk_ := dblk_ it;
     seeked_ := seeked_ it |}.

Definition set_dblk_data (it : CFileIterator) (data : BlockData)
  : CFileIterator :=
  {| reader_ := reader_ it; idx_iter_ := idx_iter_ it;
     dblk_data_ := data; dblk_ := dblk_ it; seeked_ := seeked_ it |}.

Definition set_dblk (it : CFileIterator) (d : D) : CFileIterator :=
  {| reader_ := reader_ it; idx_iter_ := idx_iter_ it;
     dblk_data_ := dblk_data_ it; dblk_ := Some d;
     seeked_ := seeked_ it |}.

(** [dblk_->ordinal_pos() + dblk_->Count()] as the machine evaluates
    it. *)
Definition block_end (d : D) : Z :=
  (ordinal_pos d + Count d) mod 2 ^ sum_bits.

Definition SeekToOrdinal (it : CFileIterator) (ord_idx : Z)
  : Outcome (Status * CFileIterator) :=
  let it := set_seeked it false in
  let (st, c) := SeekAtOrBefore (idx_iter_ it) ord_idx in
  let it := set_idx_iter it c in
  if negb (ok st) then Return (st, it) else
  let dblk_ptr := GetCurrentBlockPointer (idx_iter_ it) in
  res <- ReadBlock (reader_ it) dblk_ptr ;;
  match res with
  | Failure st => Return (st, it)
  | Success data =>
      let it := set_dblk_data it data in
      let (st, d) :=
        ParseHeader (NewIntBlockDecoder (slice (dblk_data_ it))) in
      let it := set_dblk it d in
      if negb (ok st) then Return (st, it) else
      if ord_idx >=? block_end d then
        Return (NotFound "trying to seek past highest ordinal in file",
                it)
      else
        DCHECK NDEBUG ((ord_idx >=? ordinal_pos d) &&
                       (ord_idx <? block_end d)) GotWrongDataBlock ;;;
        let d := SeekToPositionInBlock d
                   (wrap32 (ord_idx - ordinal_pos d)) in
        let it := set_dblk it d in
        DCHECK NDEBUG (ord_idx =? ordinal_pos d) FailedSeek ;;;
        Return (OK, set_seeked it true)
  end.

Definition GetCurrentOrdinal (it : CFileIterator) : Outcome Z :=
  CHECK (seeked_ it) NotSeeked ;;;
  match dblk_ it with
  | None => Fatal NullPointer
  | Some d => Return (ordinal_pos d)
  end.
End Iterator.
End Reader.

(** ** The little-endian length as the format describes it *)

Definition le32 (p : list byte) : Z :=
  byteZ (nth 0 p x00) + 2 ^ 8 * byteZ (nth 1 p x00)
  + 2 ^ 16 * byteZ (nth 2 p x00) + 2 ^ 24 * byteZ (nth 3 p x00).

(** When a preamble is refused. *)
Definition preamble_rejected {consts : CFileConstants} (data : list byte)
  : Prop :=
  length data <> 12%nat \/
  firstn 8 data <> kMagicString \/
  le32 (skipn 8 data) = 0 \/
  le32 (skipn 8 data) > 65536.


(** ** What the statements below speak of *)

Section Notions.
Context {consts : CFileConstants}.
Context {F HeaderPB FooterPB : Type}.
Context {file_if : RandomAccessFile F}.
Context {header_if : Message HeaderPB}.
Context {footer_if : FooterMessage FooterPB}.

(** Two readers over the same file in the same lifecycle state. *)
Definition same_file (r r' : @CFileReader F HeaderPB FooterPB) : Prop :=
  file_ r' = file_ r /\ file_size_ r' = file_size_ r /\
  state_ r' = state_ r.

Section Descent.
Context {K B : Type} {index_if : IndexBlockReader K B}.

(** What one index block answers for [key]: the block at [p] can be read
    and parsed, and its search yields [child] with [k]. *)
Definition block_answers (reader : @CFileReader F HeaderPB FooterPB)
  (key : K) (p : BlockPointer) (leaf : bool) (child : BlockPointer)
  (k : K) : Prop :=
  exists data blk,
    ReadBlock reader p = Return (Success data) /\
    idx_Parse (NewIndexBlockReader (slice data)) = (OK, blk) /\
    idx_Search blk key = (OK, (child, k)) /\
    idx_IsLeaf blk = leaf.

(** The answer of the leaf reached from [p] by following, at each internal
    block, the child pointer its search returns. *)
Inductive leaf_reached (reader : @CFileReader F HeaderPB FooterPB)
  (key : K) : BlockPointer -> BlockPointer * K -> Prop :=
| reached_here p res k :
    block_answers reader key p true res k ->
    leaf_reached reader key p (res, k)
| reached_below p child k out :
    block_answers reader key p false child k ->
    leaf_reached reader key child out ->
    leaf_reached reader key p out.

(** The search for [key] from [p] passes [n] internal blocks and then
    stops: at a leaf, or at a block that cannot be read, parsed or
    searched. *)
Inductive finite_depth (reader : @CFileReader F HeaderPB FooterPB)
  (key : K) : BlockPointer -> nat -> Prop :=
| depth_stop p :
    (forall child k, ~ block_answers reader key p false child k) ->
    finite_depth reader key p 0
| depth_step p child k n :
    block_answers reader key p false child k ->
    finite_depth reader key child n ->
    finite_depth reader key p (S n).

(** Every internal block sends the search for [key] to a block of
    strictly smaller depth. *)
Definition makes_progress (reader : @CFileReader F HeaderPB FooterPB)
  (key : K) (depth : BlockPointer -> nat) : Prop :=
  forall p child k,
    block_answers reader key p false child k ->
    (depth child < depth p)%nat.
End Descent.

Section Seeking.
Context {C D : Type}.
Context {cursor_if : IndexTreeIterator (@CFileReader F HeaderPB FooterPB) C}.
Context {decoder_if : IntBlockDecoder D}.

End Seeking.
End Notions.

(** ** Iterators in use *)

Section IteratorsInUse.
Context {F HeaderPB FooterPB : Type}.
Context {file_if : RandomAccessFile F}.
Context {C D : Type}.
Context {cursor_if : IndexTreeIterator (@CFileReader F HeaderPB FooterPB) C}.
Context {decoder_if : IntBlockDecoder D}.
Context {build : Build}.

(** The iterators that a program can hold: the one the constructor builds
    over [reader] and [posidx_root], and whatever a seek that returned
    leaves of such an iterator. *)
Inductive in_use (reader : @CFileReader F HeaderPB FooterPB)
  (posidx_root : BlockPointer)
  : @CFileIterator F HeaderPB FooterPB C D -> Prop :=
| in_use_new : in_use reader posidx_root (NewCFileIterator reader posidx_root)
| in_use_seek it ord st it' :
    in_use reader posidx_root it ->
    SeekToOrdinal it ord = Return (st, it') ->
    in_use reader posidx_root it'.
End IteratorsInUse.

(** ** A small cfile in memory

    One concrete set of collaborators and one concrete file, on which the
    statements below are exercised: the file of the round-trip scenario with
    a two-level positional index. *)

Module Fixture.

#[export] Instance consts : CFileConstants := {|
  kMagicString := list_byte_of_string "kuducfl!";
  kPositionalIndexIdentifier := "idx.positional"
|}.

(** A file held in memory; a read past the end comes back short. *)
Definition MemFile : Type := list byte.

#[export] Instance mem_file : RandomAccessFile MemFile :=
  fun f off n => (OK, firstn (Z.to_nat n) (skipn (Z.to_nat off) f)).

(** A file behind a checksumming layer: a read that touches the damaged
    range [pf_bad_lo, pf_bad_hi) fails. *)
Record PatchyFile : Type := {
  pf_bytes : list byte;
  pf_bad_lo : Z;
  pf_bad_hi : Z
}.

#[export] Instance patchy_file : RandomAccessFile PatchyFile :=
  fun f off n =>
    if (off <? pf_bad_hi f) && (pf_bad_lo f <? off + n) then
      (Corruption "checksum mismatch", [])
    else (OK, firstn (Z.to_nat n) (skipn (Z.to_nat off) (pf_bytes f))).

(** The header payload is kept as it is. *)
Definition RawHeader : Type := list byte.

#[export] Instance raw_header : Message RawHeader := {|
  New := [];
  ParseFromArray data n :=
    if Z.of_nat (length data) =? n then (true, data) else (false, [])
|}.

(** The footer payload: three bytes per index (name tag, offset, size);
    tag 1 names the positional index. *)
Definition tag_name (b : byte) : string :=
  if Byte.eqb b x01 then "idx.positional" else "idx.other".

Fixpoint parse_infos (data : list byte) : option (list BTreeInfoPB) :=
  match data with
  | [] => Some []
  | t :: o :: s :: rest =>
      match parse_infos rest with
      | Some l =>
          Some ({| metadata := {| identifier := tag_name t |};
                   root_block := {| pb_offset := byteZ o;
                                    pb_size := byteZ s |} |} :: l)
      | None => None
      end
  | _ => None
  end.

Definition ListFooter : Type := list BTreeInfoPB.

#[export] Instance list_footer_message : Message ListFooter := {|
  New := [];
  ParseFromArray data n :=
    if Z.of_nat (length data) =? n then
      match parse_infos data with
      | Some l => (true, l)
      | None => (false, [])
      end
    else (false, [])
|}.

#[export] Instance list_footer : FooterMessage ListFooter := {|
  btrees f := f
|}.

(** An index block: a leaf flag, then three bytes per entry (key, offset,
    size), keys ascending. *)
Record IdxBlock : Type := {
  ib_raw : list byte;
  ib_leaf : bool;
  ib_entries : list (Z * BlockPointer)
}.

Fixpoint parse_entries (data : list byte)
  : option (list (Z * BlockPointer)) :=
  match data with
  | [] => Some []
  | k :: o :: s :: rest =>
      match parse_entries rest with
      | Some l =>
          Some ((byteZ k, {| offset := byteZ o; size := byteZ s |}) :: l)
      | None => None
      end
  | _ => None
  end.

(** The last entry whose key is at most [key]. *)
Fixpoint at_or_before (es : list (Z * BlockPointer)) (key : Z)
  (best : option (Z * BlockPointer)) : option (Z * BlockPointer) :=
  match es with
  | [] => best
  | (k, p) :: rest =>
      if k <=? key then at_or_before rest key (Some (k, p)) else best
  end.

Definition no_pointer : BlockPointer := {| offset := 0; size := 0 |}.

#[export] Instance idx_block : IndexBlockReader Z IdxBlock := {|
  NewIndexBlockReader raw :=
    {| ib_raw := raw; ib_leaf := false; ib_entries := [] |};
  idx_Parse b :=
    match ib_raw b with
    | flag :: rest =>
        match parse_entries rest with
        | Some es =>
            (OK, {| ib_raw := ib_raw b;
                    ib_leaf := Byte.eqb flag x01;
                    ib_entries := es |})
        | None => (Corruption "bad index block", b)
        end
    | [] => (Corruption "empty index block", b)
    end;
  idx_Search b key :=
    match at_or_before (ib_entries b) key None with
    | Some (k, p) => (OK, (p, k))
    | None => (NotFound "key before first entry", (no_pointer, 0))
    end;
  idx_IsLeaf b := ib_leaf b
|}.

Definition Reader : Type := @CFileReader MemFile RawHeader ListFooter.

(** The cursor walks the index through the reader it was built on. *)
Record Cursor : Type := {
  c_reader : Reader;
  c_root : BlockPointer;
  c_block : BlockPointer
}.

#[export] Instance cursor : IndexTreeIterator Reader Cursor := {|
  NewIndexTreeIterator r root :=
    {| c_reader := r; c_root := root; c_block := no_pointer |};
  SeekAtOrBefore c key :=
    match SearchDownward 8 (c_reader c) key (c_root c) with
    | Some (Return (Success (p, _))) =>
        (OK, {| c_reader := c_reader c; c_root := c_root c;
                c_block := p |})
    | Some (Return (Failure st)) => (st, c)
    | _ => (Corruption "index walk aborted", c)
    end;
  GetCurrentBlockPointer c := c_block c
|}.

(** A data block: first ordinal, number of entries, then the values. *)
Record Decoder : Type := {
  d_raw : list byte;
  d_first : Z;
  d_count : Z;
  d_cur : Z
}.

#[export] Instance decoder : IntBlockDecoder Decoder := {|
  NewIntBlockDecoder raw :=
    {| d_raw := raw; d_first := 0; d_count := 0; d_cur := 0 |};
  ParseHeader d :=
    match d_raw d with
    | f :: c :: _ =>
        (OK, {| d_raw := d_raw d; d_first := byteZ f;
                d_count := byteZ c; d_cur := 0 |})
    | _ => (Corruption "short data block", d)
    end;
  ordinal_pos d := wrap32 (d_first d + d_cur d);
  Count d := d_count d;
  SeekToPositionInBlock d n :=
    {| d_raw := d_raw d; d_first := d_first d; d_count := d_count d;
       d_cur := n |};
  sum_bits := 64
|}.

Definition debug_build : Build := false.

Definition magic : list byte := list_byte_of_string "kuducfl!".

(** offset  0: magic, header length 10
    offset 12: header payload
    offset 22: data block, ordinals 0 .. 99
    offset 24: leaf index block, key 0 -> (22, 2)
    offset 28: root index block, key 0 -> (24, 4)
    offset 32: footer payload, positional index -> (28, 4)
    offset 35: magic, footer length 3 *)
Definition cfile : MemFile :=
  magic ++ [x0a; x00; x00; x00]
  ++ [x01; x02; x03; x04; x05; x06; x07; x08; x09; x0a]
  ++ [x00; x64]
  ++ [x01; x00; x16; x02]
  ++ [x00; x00; x18; x04]
  ++ [x01; x1c; x04]
  ++ magic ++ [x03; x00; x00; x00].

Definition fresh : Reader := NewCFileReader cfile 47.

(** The same file with a footer length of zero in its last frame. *)
Definition cfile_bad_footer_length : MemFile :=
  firstn 43 cfile ++ [x00; x00; x00; x00].

Definition fresh_bad_footer_length : Reader :=
  NewCFileReader cfile_bad_footer_length 47.

(** The same file with a wrong magic in its last frame. *)
Definition cfile_bad_footer_magic : MemFile :=
  firstn 35 cfile ++ [x00] ++ skipn 36 cfile.

Definition fresh_bad_footer_magic : Reader :=
  NewCFileReader cfile_bad_footer_magic 47.

(** The same file with a wrong magic in its first frame. *)
Definition cfile_bad_header_magic : MemFile := x00 :: skipn 1 cfile.

Definition fresh_bad_header_magic : Reader :=
  NewCFileReader cfile_bad_header_magic 47.

Definition after_Init (r : Reader) : Reader :=
  match Init 0 0 r with
  | Return (_, r') => r'
  | Fatal _ => r
  end.

Definition ready : Reader := after_Init fresh.

(** The same file again, with its data block damaged. *)
Definition patchy_ready : @CFileReader PatchyFile RawHeader ListFooter :=
  match Init 0 0 (NewCFileReader
                    {| pf_bytes := cfile; pf_bad_lo := 22; pf_bad_hi := 24 |}
                    47) with
  | Return (_, r') => r'
  | Fatal _ =>
      NewCFileReader {| pf_bytes := []; pf_bad_lo := 0; pf_bad_hi := 0 |} 0
  end.

Definition root : BlockPointer := {| offset := 28; size := 4 |}.
Definition leaf : BlockPointer := {| offset := 24; size := 4 |}.
Definition data_block : BlockPointer := {| offset := 22; size := 2 |}.

(** A pointer to the last byte that a 64-bit offset can name. *)
Definition far_pointer : BlockPointer :=
  {| offset := 2 ^ 64 - 1; size := 2 |}.

Definition Iterator : Type :=
  @CFileIterator MemFile RawHeader ListFooter Cursor Decoder.

Definition iterator : Iterator := NewCFileIterator ready root.

Definition after_seek (build : Build) (it : Iterator) (ord : Z) : Iterator :=
  match SeekToOrdinal it ord with
  | Return (_, it') => it'
  | Fatal _ => it
  end.

End Fixture.

(** ** Damaged variants of the small cfile *)

Module Damaged.
Import Fixture.

(** A cfile of 13 bytes: a frame and a header payload of one byte. *)
Definition short_file : MemFile := magic ++ [x01; x00; x00; x00] ++ [x2a].

Definition fresh_short : Reader := NewCFileReader short_file 13.

(** The root index block points to itself. *)
Definition loop_file : MemFile :=
  firstn 28 cfile ++ [x00; x00; x1c; x04] ++ skipn 32 cfile.

Definition loop_ready : Reader := after_Init (NewCFileReader loop_file 47).

(** The root index block points to offset 0. *)
Definition stray_root_file : MemFile :=
  firstn 28 cfile ++ [x00; x00; x00; x04] ++ skipn 32 cfile.

Definition stray_root_ready : Reader :=
  after_Init (NewCFileReader stray_root_file 47).

(** The leaf index block points to offset 0. *)
Definition stray_leaf_file : MemFile :=
  firstn 24 cfile ++ [x01; x00; x00; x02] ++ skipn 28 cfile.

Definition stray_leaf_ready : Reader :=
  after_Init (NewCFileReader stray_leaf_file 47).

Definition stray_leaf_iterator : Iterator :=
  NewCFileIterator stray_leaf_ready root.

(** The footer names one index, and it is not the positional one. *)
Definition no_index_file : MemFile :=
  firstn 32 cfile ++ [x02] ++ skipn 33 cfile.

Definition no_index_ready : Reader :=
  after_Init (NewCFileReader no_index_file 47).

(** The last frame announces a footer of 100 bytes in a file of 47. *)
Definition long_footer_file : MemFile :=
  firstn 43 cfile ++ [x64; x00; x00; x00].

Definition fresh_long_footer : Reader := NewCFileReader long_footer_file 47.

(** The same file, read through a layer that refuses every read that
    goes past the end of the file. *)
Definition fresh_long_footer_strict
  : @CFileReader PatchyFile RawHeader ListFooter :=
  NewCFileReader
    {| pf_bytes := long_footer_file; pf_bad_lo := 47; pf_bad_hi := 2 ^ 65 |}
    47.



(** A decoder that moves to a position inside its block and stays where
    it is when sent anywhere else. *)
Record BoundedDecoder : Type := { bounded : Decoder }.

#[export] Instance bounded_decoder : IntBlockDecoder BoundedDecoder := {|
  NewIntBlockDecoder raw := {| bounded := NewIntBlockDecoder raw |};
  ParseHeader d :=
    let (st, d') := ParseHeader (bounded d) in (st, {| bounded := d' |});
  ordinal_pos d := ordinal_pos (bounded d);
  Count d := Count (bounded d);
  SeekToPositionInBlock d n :=
    if (0 <=? n) && (n <? Count (bounded d)) then
      {| bounded := SeekToPositionInBlock (bounded d) n |}
    else d;
  sum_bits := 64
|}.


End Damaged.

(** ** Proof steps used throughout *)

(** Case analysis on the next scrutinee of the goal, or of hypothesis
    [H]. *)
Ltac step_goal :=
  match goal with
  | |- context [match ?e with _ => _ end] =>
      lazymatch e with
      | context [match _ with _ => _ end] => fail
      | _ => let E := fresh "E" in destruct e eqn:E
      end
  end.

Ltac step_in H :=
  match type of H with
  | context [match ?e with _ => _ end] =>
      lazymatch e with
      | context [match _ with _ => _ end] => fail
      | _ => let E := fresh "E" in destruct e eqn:E
      end
  end.


(** * Properties *)

(** ** Bytes and the little-endian length *)

Lemma byteZ_range (b : byte) : 0 <= byteZ b < 256.
Proof.
  unfold byteZ. pose proof (Byte.to_N_bounded b). lia.
Qed.

Lemma lor_shiftl_add (a b n : Z) :
  0 <= n -> 0 <= a < 2 ^ n -> Z.lor a (Z.shiftl b n) = a + b * 2 ^ n.
Proof.
  intros Hn Ha.
  pose proof (Z.add_lor_land a (Z.shiftl b n)) as Hsum.
  assert (Hland : Z.land a (Z.shiftl b n) = 0).
  { apply Z.bits_inj'. intros m Hm.
    rewrite Z.land_spec, Z.bits_0.
    destruct (Z.lt_ge_cases m n) as [Hlt | Hge].
    - rewrite Z.shiftl_spec_low by assumption.
      apply andb_false_r.
    - rewrite <- (Z.mod_small a (2 ^ n)) by assumption.
      rewrite Z.mod_pow2_bits_high by lia. reflexivity. }
  rewrite Hland in Hsum.
  rewrite Z.shiftl_mul_pow2 in Hsum by assumption.
  rewrite Z.shiftl_mul_pow2 by assumption.
  rewrite <- Hsum. symmetry. apply Z.add_0_r.
Qed.

Lemma DecodeFixed32_le32 (p : list byte) : DecodeFixed32 p = le32 p.
Proof.
  unfold DecodeFixed32, le32.
  pose proof (byteZ_range (nth 0 p x00)) as H0.
  pose proof (byteZ_range (nth 1 p x00)) as H1.
  pose proof (byteZ_range (nth 2 p x00)) as H2.
  pose proof (byteZ_range (nth 3 p x00)) as H3.
  rewrite (lor_shiftl_add (byteZ (nth 1 p x00)) (n := 8))
    by (change (2 ^ 8) with 256; lia).
  rewrite (lor_shiftl_add (byteZ (nth 2 p x00)) (n := 16))
    by (change (2 ^ 8) with 256; change (2 ^ 16) with 65536; lia).
  rewrite (lor_shiftl_add (byteZ (nth 3 p x00)) (n := 24))
    by (change (2 ^ 8) with 256; change (2 ^ 16) with 65536;
        change (2 ^ 24) with 16777216; lia).
  lia.
Qed.

Lemma le32_range (p : list byte) : 0 <= le32 p < 2 ^ 32.
Proof.
  unfold le32.
  pose proof (byteZ_range (nth 0 p x00)).
  pose proof (byteZ_range (nth 1 p x00)).
  pose proof (byteZ_range (nth 2 p x00)).
  pose proof (byteZ_range (nth 3 p x00)).
  change (2 ^ 8) with 256; change (2 ^ 16) with 65536;
    change (2 ^ 24) with 16777216; change (2 ^ 32) with 4294967296.
  lia.
Qed.

Lemma memcmp_zero_iff (n : nat) : forall a b : list byte,
  (n <= length a)%nat -> (n <= length b)%nat ->
  (memcmp a b n = 0 <-> firstn n a = firstn n b).
Proof.
  induction n as [| n IH]; intros a b Ha Hb; simpl.
  - tauto.
  - destruct a as [| x a]; [simpl in Ha; lia |].
    destruct b as [| y b]; [simpl in Hb; lia |].
    simpl in *. destruct (Byte.eqb x y) eqn:E.
    + apply Byte.byte_dec_bl in E. subst y.
      rewrite IH by lia. split; intro H.
      * now rewrite H.
      * now injection H.
    + apply Byte.eqb_false in E. split; intro H.
      * exfalso. apply E.
        assert (Hn : Byte.to_N x = Byte.to_N y) by (unfold byteZ in H; lia).
        apply (f_equal Byte.of_N) in Hn.
        rewrite !Byte.of_to_N in Hn. congruence.
      * injection H as Hxy _. contradiction.
Qed.

Section FramingFacts.
Context {consts : CFileConstants}.
Hypothesis magic_size : length kMagicString = 8%nat.

Lemma magic_accepted (data : list byte) :
  length data = 12%nat ->
  (memcmp kMagicString data (length kMagicString) =? 0) = true <->
  firstn 8 data = kMagicString.
Proof.
  intro Hlen. rewrite Z.eqb_eq, magic_size.
  rewrite memcmp_zero_iff by lia.
  rewrite <- magic_size at 1. rewrite firstn_all.
  split; intro H; now rewrite H.
Qed.

(** C3.  A preamble is refused with Corruption exactly when it does not
    have twelve bytes, or does not start with the magic, or carries a
    little-endian length of zero or more than 65536; every other preamble
    is accepted, and the length handed back is the decoded one. *)
Theorem ParseMagicAndLength_spec (data : list byte) (len0 : Z) :
  (preamble_rejected data ->
     IsCorruption (fst (ParseMagicAndLength data len0)) = true) /\
  (~ preamble_rejected data ->
     ParseMagicAndLength data len0 = (OK, le32 (skipn 8 data))).
Proof.
  unfold preamble_rejected, ParseMagicAndLength, kMagicAndLengthSize,
    kMaxHeaderFooterPBSize.
  destruct (Z.of_nat (length data) =? 12) eqn:Hsz; cbn [negb].
  - apply Z.eqb_eq in Hsz.
    assert (Hlen : length data = 12%nat) by lia.
    pose proof (magic_accepted data Hlen) as Hm.
    destruct (memcmp kMagicString data (length kMagicString) =? 0) eqn:Hc;
      cbn [negb].
    + assert (Hfirst : firstn 8 data = kMagicString) by now apply Hm.
      rewrite magic_size, DecodeFixed32_le32.
      pose proof (le32_range (skipn 8 data)) as Hr.
      destruct ((le32 (skipn 8 data) <=? 0)
                || (le32 (skipn 8 data) >? 64 * 1024)) eqn:Hb.
      * split; [reflexivity |].
        intro Hn. exfalso. apply Hn.
        apply orb_true_iff in Hb. destruct Hb as [Hb | Hb].
        -- apply Z.leb_le in Hb. right; right; left. lia.
        -- rewrite Z.gtb_ltb in Hb. apply Z.ltb_lt in Hb.
           right; right; right. lia.
      * apply orb_false_iff in Hb. destruct Hb as [Hb1 Hb2].
        apply Z.leb_gt in Hb1. rewrite Z.gtb_ltb in Hb2.
        apply Z.ltb_ge in Hb2.
        split; [| reflexivity].
        intros [H | [H | [H | H]]]; try contradiction; lia.
    + split; [reflexivity |].
      intro Hn. exfalso. apply Hn. right; left.
      intro Hfirst. apply Hm in Hfirst. discriminate.
  - apply Z.eqb_neq in Hsz.
    split; [reflexivity |].
    intro Hn. exfalso. apply Hn. left. lia.
Qed.
End FramingFacts.

(** ** The reader *)

Lemma ok_true (st : Status) : ok st = true <-> st = OK.
Proof.
  destruct st; simpl; split; intro H; congruence.
Qed.

Lemma State_eqb_eq (a b : State) : State_eqb a b = true <-> a = b.
Proof.
  destruct a, b; simpl; split; intro H; congruence.
Qed.

Section ReaderFacts.
Context {consts : CFileConstants}.
Context {F HeaderPB FooterPB : Type}.
Context {file_if : RandomAccessFile F}.
Context {header_if : Message HeaderPB}.
Context {footer_if : FooterMessage FooterPB}.

Implicit Types r : @CFileReader F HeaderPB FooterPB.

Lemma same_file_refl r : same_file r r.
Proof. repeat split. Qed.

Lemma same_file_trans r1 r2 r3 :
  same_file r1 r2 -> same_file r2 r3 -> same_file r1 r3.
Proof.
  unfold same_file. intros (H1 & H2 & H3) (H4 & H5 & H6).
  repeat split; congruence.
Qed.

Lemma ReadMagicAndLength_ok_len r (off len len' : Z) :
  fst (ReadMagicAndLength r off len) = fst (ReadMagicAndLength r off len')
  /\ (fst (ReadMagicAndLength r off len) = OK ->
      ReadMagicAndLength r off len = ReadMagicAndLength r off len').
Proof.
  unfold ReadMagicAndLength, ParseMagicAndLength.
  repeat (step_goal; cbn [fst negb]); split;
    try reflexivity; try discriminate; intro Hs; try reflexivity;
    subst; discriminate.
Qed.

Lemma ReadMagicAndLength_same_file r r' (off len : Z) :
  same_file r r' ->
  ReadMagicAndLength r' off len = ReadMagicAndLength r off len.
Proof.
  intros (Hf & _ & _). unfold ReadMagicAndLength. now rewrite Hf.
Qed.

Lemma ReadAndParseHeader_inv (hs : Z) r r' (st : Status) :
  ReadAndParseHeader hs r = Return (st, r') ->
  state_ r = kUninitialized /\ same_file r r'.
Proof.
  unfold ReadAndParseHeader, CHECK, bind, same_file.
  intro H. repeat step_in H; try discriminate;
    injection H as <- <-; cbn;
    rewrite State_eqb_eq in *; repeat split; assumption.
Qed.

Lemma ReadAndParseFooter_inv (fs : Z) r r' (st : Status) :
  ReadAndParseFooter fs r = Return (st, r') ->
  state_ r = kUninitialized /\ file_size_ r > 24 /\ same_file r r' /\
  footer_ r' <> None.
Proof.
  unfold ReadAndParseFooter, CHECK, bind, same_file, kMagicAndLengthSize.
  intro H. repeat step_in H; try discriminate;
    injection H as <- <-; cbn;
    rewrite State_eqb_eq in *; rewrite Z.gtb_ltb, Z.ltb_lt in *;
    repeat split; try assumption; try lia; discriminate.
Qed.

Lemma ReadAndParseFooter_returns (fs : Z) r :
  state_ r = kUninitialized -> file_size_ r > 24 ->
  exists st r', ReadAndParseFooter fs r = Return (st, r').
Proof.
  intros Hs Hsz.
  unfold ReadAndParseFooter, CHECK, bind, kMagicAndLengthSize.
  rewrite Hs. cbn [State_eqb].
  replace (file_size_ r >? 12 * 2) with true
    by (symmetry; rewrite Z.gtb_ltb; apply Z.ltb_lt; lia).
  repeat step_goal; eauto.
Qed.

(** The header step does not look at the uninitialised length it is
    given, nor at the messages the reader holds. *)
Lemma ReadAndParseHeader_same_file (hs hs' : Z) r r' r1 (st : Status) :
  same_file r r' ->
  ReadAndParseHeader hs r = Return (st, r1) ->
  exists r1', ReadAndParseHeader hs' r' = Return (st, r1').
Proof.
  intros Hsame H.
  pose proof Hsame as (Hf & Hsz & Hst).
  unfold ReadAndParseHeader in *.
  rewrite Hst.
  destruct (CHECK (State_eqb (state_ r) kUninitialized) BadStateHeader)
    as [f | []]; cbn [bind] in *; [discriminate |].
  rewrite (ReadMagicAndLength_same_file _ _ Hsame).
  destruct (ReadMagicAndLength_ok_len r 0 hs hs') as [Hfst Hok].
  destruct (ReadMagicAndLength r 0 hs) as [st1 n1] eqn:E1.
  destruct (ReadMagicAndLength r 0 hs') as [st2 n2] eqn:E2.
  cbn [fst] in *. subst st2.
  destruct (ok st1) eqn:Eok; cbn [negb] in *.
  - apply ok_true in Eok. specialize (Hok Eok).
    injection Hok as <-.
    cbn [set_header file_] in *. rewrite Hf.
    repeat step_in H; try discriminate;
      injection H as <- _; eauto.
  - injection H as <- _. eauto.
Qed.

Lemma Init_inv (hs fs : Z) r r' (st : Status) :
  Init hs fs r = Return (st, r') ->
  state_ r = kUninitialized /\
  ((st <> OK /\ state_ r' = kUninitialized /\
    (ReadAndParseHeader hs r = Return (st, r') \/
     exists r1, ReadAndParseHeader hs r = Return (OK, r1) /\
                ReadAndParseFooter fs r1 = Return (st, r'))) \/
   (st = OK /\
    exists r1 r2, ReadAndParseHeader hs r = Return (OK, r1) /\
                  ReadAndParseFooter fs r1 = Return (OK, r2) /\
                  r' = set_state r2 kInitialized)).
Proof.
  unfold Init. intro H.
  destruct (State_eqb (state_ r) kUninitialized) eqn:Es;
    cbn [CHECK bind] in H; [| discriminate].
  apply State_eqb_eq in Es. split; [assumption |].
  destruct (ReadAndParseHeader hs r) as [f | [st1 r1]] eqn:Eh;
    cbn [bind] in H; [discriminate |].
  pose proof (ReadAndParseHeader_inv _ _ Eh) as (_ & _ & _ & Hs1).
  destruct (ok st1) eqn:Eok1; cbn [negb] in H.
  - apply ok_true in Eok1. subst st1.
    destruct (ReadAndParseFooter fs r1) as [f | [st2 r2]] eqn:Ef;
      cbn [bind] in H; [discriminate |].
    pose proof (ReadAndParseFooter_inv _ _ Ef) as (_ & _ & (_ & _ & Hs2) & _).
    destruct (ok st2) eqn:Eok2; cbn [negb] in H.
    + apply ok_true in Eok2. subst st2.
      injection H as <- <-. right. split; [reflexivity |]. eauto.
    + injection H as <- <-. left.
      assert (st2 <> OK) by (intro; subst; discriminate).
      repeat split; try assumption; try congruence. right. eauto.
  - injection H as <- <-. left.
    assert (st1 <> OK) by (intro; subst; discriminate).
    repeat split; try assumption; try congruence. now left.
Qed.

Lemma Init_ok_footer (hs fs : Z) r r' :
  Init hs fs r = Return (OK, r') ->
  state_ r' = kInitialized /\ exists f, footer_ r' = Some f.
Proof.
  intro H. apply Init_inv in H.
  destruct H as (_ & [(Hne & _) | (_ & r1 & r2 & _ & Hf & ->)]).
  - now contradiction Hne.
  - split; [reflexivity |].
    apply ReadAndParseFooter_inv in Hf. destruct Hf as (_ & _ & _ & Hfoot).
    cbn. destruct (footer_ r2) as [f |]; [eauto | contradiction].
Qed.

(** C6.  A reader is created uninitialized.  Init is fatal unless the
    reader is uninitialized; it makes the reader initialized exactly when
    the header step and then the footer step both return OK, and a reader
    that has been initialized cannot be initialized again.  ReadBlock and
    SearchPosition are fatal on a reader that is not initialized. *)
Theorem lifecycle :
  (forall (file : F) (file_size : Z),
     state_ (NewCFileReader (HeaderPB := HeaderPB) (FooterPB := FooterPB)
               file file_size) = kUninitialized) /\
  (forall hs fs r,
     state_ r <> kUninitialized ->
     Init hs fs r = Fatal ShouldBeUninitialized) /\
  (forall hs fs r st r',
     Init hs fs r = Return (st, r') ->
     (state_ r' = kInitialized <-> st = OK) /\
     (st = OK <->
      exists r1 r2, ReadAndParseHeader hs r = Return (OK, r1) /\
                    ReadAndParseFooter fs r1 = Return (OK, r2))) /\
  (forall hs fs r r',
     Init hs fs r = Return (OK, r') ->
     forall hs' fs', Init hs' fs' r' = Fatal ShouldBeUninitialized) /\
  (forall r ptr,
     state_ r <> kInitialized -> ReadBlock r ptr = Fatal BadStateReadBlock) /\
  (forall (K B : Type) (index_if : IndexBlockReader K B) fuel r (pos : K),
     state_ r <> kInitialized ->
     SearchPosition fuel r pos = Some (Fatal MustInitFirst)).
Proof.
  assert (Hfatal : forall hs fs r, state_ r <> kUninitialized ->
                   Init hs fs r = Fatal ShouldBeUninitialized).
  { intros hs fs r Hs. unfold Init.
    destruct (State_eqb (state_ r) kUninitialized) eqn:E;
      [apply State_eqb_eq in E; contradiction | reflexivity]. }
  repeat split.
  - exact Hfatal.
  - intro Hinit. apply Init_inv in H.
    destruct H as (_ & [(_ & Hu & _) | (Hok & _)]); congruence.
  - intros ->. now apply Init_ok_footer in H.
  - intros ->. apply Init_inv in H.
    destruct H as (_ & [(Hne & _) | (_ & r1 & r2 & Hh & Hf & _)]).
    + now contradiction Hne.
    + eauto.
  - intros (r1 & r2 & Hh & Hf).
    unfold Init in H.
    destruct (State_eqb (state_ r) kUninitialized);
      cbn [CHECK bind] in H; [| discriminate].
    rewrite Hh in H. cbn [bind ok negb] in H.
    rewrite Hf in H. cbn [bind ok negb] in H. congruence.
  - intros hs fs r r' H hs' fs'. apply Hfatal.
    apply Init_ok_footer in H. destruct H as [H _]. congruence.
  - intros r ptr Hs. unfold ReadBlock.
    destruct (State_eqb (state_ r) kInitialized) eqn:E;
      [apply State_eqb_eq in E; contradiction | reflexivity].
  - intros K B index_if fuel r pos Hs. unfold SearchPosition.
    destruct (State_eqb (state_ r) kInitialized) eqn:E;
      [apply State_eqb_eq in E; contradiction | reflexivity].
Qed.

(** C10.  When Init returns an error the reader is still uninitialized,
    and a further Init on it passes the state check: it returns a status
    again, whatever the uninitialised locals hold that time. *)
Theorem failed_Init_keeps_uninitialized (hs fs : Z) r r' (st : Status) :
  Init hs fs r = Return (st, r') ->
  st <> OK ->
  state_ r' = kUninitialized /\
  forall hs' fs', exists st' r'', Init hs' fs' r' = Return (st', r'').
Proof.
  intros H Hne. apply Init_inv in H.
  destruct H as (Hs & [(_ & Hu & Hwhere) | (Hok & _)]); [| contradiction].
  split; [assumption |].
  intros hs' fs'. unfold Init. rewrite Hu. cbn [State_eqb CHECK bind].
  destruct Hwhere as [Hh | (r1 & Hh & Hf)].
  - pose proof (ReadAndParseHeader_inv _ _ Hh) as (_ & Hsame).
    destruct (ReadAndParseHeader_same_file hs hs' Hsame Hh) as (r1' & Hh').
    rewrite Hh'. cbn [bind].
    destruct (ok st) eqn:Eok; [apply ok_true in Eok; contradiction |].
    cbn [negb]. eauto.
  - pose proof (ReadAndParseHeader_inv _ _ Hh) as (_ & Hsame1).
    pose proof (ReadAndParseFooter_inv _ _ Hf) as (_ & Hsz & Hsame2 & _).
    pose proof (same_file_trans Hsame1 Hsame2) as Hsame.
    destruct (ReadAndParseHeader_same_file hs hs' Hsame Hh) as (r1' & Hh').
    rewrite Hh'. cbn [bind ok negb].
    pose proof (ReadAndParseHeader_inv _ _ Hh') as (_ & Hsame').
    destruct Hsame as (_ & Hsz2 & _).
    destruct Hsame1 as (_ & Hsz1 & _).
    destruct Hsame' as (_ & Hsz' & Hst').
    destruct (@ReadAndParseFooter_returns fs' r1') as (st' & r2' & Hf').
    + congruence.
    + destruct Hsame2 as (_ & Hsz3 & _). lia.
    + rewrite Hf'. cbn [bind]. destruct (negb (ok st')); eauto.
Qed.

(** *** Named index roots *)

Lemma GetIndexRootBlock_loop_first (pre post : list BTreeInfoPB)
  (info : BTreeInfoPB) (id : string) :
  (forall i, In i pre -> identifier (metadata i) <> id) ->
  identifier (metadata info) = id ->
  GetIndexRootBlock_loop (pre ++ info :: post) id
  = Success (BlockPointer_of_pb (root_block info)).
Proof.
  intros Hpre Hid. induction pre as [| i pre IH]; cbn.
  - apply String.eqb_eq in Hid. now rewrite Hid.
  - destruct (String.eqb_spec (identifier (metadata i)) id) as [E | _].
    + exfalso. apply (Hpre i); [now left | exact E].
    + apply IH. intros j Hj. apply Hpre. now right.
Qed.

Lemma GetIndexRootBlock_loop_none (infos : list BTreeInfoPB) (id : string) :
  (forall i, In i infos -> identifier (metadata i) <> id) ->
  GetIndexRootBlock_loop infos id = Failure (NotFound "no such index").
Proof.
  intro Hall. induction infos as [| i infos IH]; cbn.
  - reflexivity.
  - destruct (String.eqb_spec (identifier (metadata i)) id) as [E | _].
    + exfalso. apply (Hall i); [now left | exact E].
    + apply IH. intros j Hj. apply Hall. now right.
Qed.

(** C7.  On a reader that Init has initialized the footer is there, and
    GetIndexRootBlock answers with the root of the first descriptor, in
    footer order, whose identifier is the one asked for, and with NotFound
    when no descriptor has it; two calls with the same identifier give the
    same pointer. *)
Theorem GetIndexRootBlock_first_match (hs fs : Z) r r' (id : string) :
  Init hs fs r = Return (OK, r') ->
  exists f,
    footer_ r' = Some f /\
    (forall pre info post,
       btrees f = pre ++ info :: post ->
       (forall i, In i pre -> identifier (metadata i) <> id) ->
       identifier (metadata info) = id ->
       GetIndexRootBlock r' id
       = Return (Success (BlockPointer_of_pb (root_block info)))) /\
    ((forall i, In i (btrees f) -> identifier (metadata i) <> id) ->
     exists msg, GetIndexRootBlock r' id = Return (Failure (NotFound msg))) /\
    (forall p1 p2,
       GetIndexRootBlock r' id = Return (Success p1) ->
       GetIndexRootBlock r' id = Return (Success p2) ->
       p1 = p2).
Proof.
  intro H. apply Init_ok_footer in H. destruct H as (_ & f & Hf).
  exists f. split; [assumption |].
  unfold GetIndexRootBlock. rewrite Hf. repeat split.
  - intros pre info post Hlist Hpre Hid. rewrite Hlist.
    now rewrite GetIndexRootBlock_loop_first.
  - intro Hall. eexists. now rewrite GetIndexRootBlock_loop_none.
  - intros p1 p2 H1 H2. congruence.
Qed.

(** *** Block reads *)

Lemma ReadBlock_cases r (ptr : BlockPointer) :
  state_ r = kInitialized ->
  if (offset ptr >? 0) && (wrap64 (offset ptr + size ptr) <? file_size_ r)
  then
    ReadBlock r ptr =
    (let (st, s) := Read (file_ r) (offset ptr) (size ptr) in
     if negb (ok st) then Return (Failure st)
     else if negb (Z.of_nat (length s) =? size ptr) then
       Return (Failure (IOError "Could not read full block length"))
     else Return (Success {| slice := s |}))
  else ReadBlock r ptr = Fatal BadOffset.
Proof.
  intro Hs. unfold ReadBlock. rewrite Hs. cbn [State_eqb CHECK bind].
  destruct ((offset ptr >? 0)
            && (wrap64 (offset ptr + size ptr) <? file_size_ r));
    reflexivity.
Qed.

Lemma ReadBlock_failure_not_ok r (ptr : BlockPointer) (st : Status) :
  ReadBlock r ptr = Return (Failure st) -> st <> OK.
Proof.
  unfold ReadBlock, CHECK, bind. intros H ->.
  repeat step_in H; try discriminate.
  injection H as ->. discriminate.
Qed.

Lemma in_bounds_iff r (ptr : BlockPointer) :
  (offset ptr >? 0) && (wrap64 (offset ptr + size ptr) <? file_size_ r)
  = true <->
  offset ptr > 0 /\ (offset ptr + size ptr) mod 2 ^ 64 < file_size_ r.
Proof.
  unfold wrap64.
  rewrite andb_true_iff, Z.gtb_ltb, !Z.ltb_lt. lia.
Qed.

(** C2, amended.  On an initialized reader, for a pointer with
    [offset > 0] and [offset + size < file_size], ReadBlock hands back the
    failure of the underlying read when that read fails, an I/O error when
    the read comes back with a number of bytes other than [size], and
    otherwise a view of exactly [size] bytes, those read at [offset].  For
    a pointer with offset 0, or whose end [offset + size] is at least
    [file_size] and still a 64-bit number, ReadBlock is fatal. *)
Theorem ReadBlock_spec r (ptr : BlockPointer) :
  state_ r = kInitialized ->
  0 <= file_size_ r < 2 ^ 64 -> 0 <= size ptr ->
  (offset ptr > 0 /\ offset ptr + size ptr < file_size_ r ->
   forall st s,
     Read (file_ r) (offset ptr) (size ptr) = (st, s) ->
     (st <> OK -> ReadBlock r ptr = Return (Failure st)) /\
     (st = OK -> Z.of_nat (length s) <> size ptr ->
      exists msg, ReadBlock r ptr = Return (Failure (IOError msg))) /\
     (st = OK -> Z.of_nat (length s) = size ptr ->
      ReadBlock r ptr = Return (Success {| slice := s |}))) /\
  (offset ptr = 0 \/ file_size_ r <= offset ptr + size ptr < 2 ^ 64 ->
   ReadBlock r ptr = Fatal BadOffset).
Proof.
  intros Hs Hfile Hsize. pose proof (ReadBlock_cases r ptr Hs) as Hc.
  pose proof (in_bounds_iff r ptr) as Hb.
  destruct ((offset ptr >? 0)
            && (wrap64 (offset ptr + size ptr) <? file_size_ r)).
  - split.
    + intros _ st s HR. rewrite HR in Hc. split; [| split].
      * intro Hne. destruct (ok st) eqn:E;
          [apply ok_true in E; contradiction | exact Hc].
      * intros -> Hlen. cbn [ok negb] in Hc.
        apply Z.eqb_neq in Hlen. rewrite Hlen in Hc.
        eexists. exact Hc.
      * intros -> Hlen. cbn [ok negb] in Hc.
        apply Z.eqb_eq in Hlen. rewrite Hlen in Hc. exact Hc.
    + intro Hout. exfalso.
      destruct (proj1 Hb eq_refl) as [Hpos Hmod].
      destruct Hout as [Hzero | Hend]; [lia |].
      rewrite Z.mod_small in Hmod by lia. lia.
  - split.
    + intros [Hpos Hend]. exfalso.
      assert (Hin : offset ptr > 0 /\
                    (offset ptr + size ptr) mod 2 ^ 64 < file_size_ r)
        by (rewrite Z.mod_small by lia; lia).
      apply Hb in Hin. discriminate.
    + intros _. exact Hc.
Qed.

(** C9.  The bounds check of ReadBlock is made on the sum modulo 2^64: an
    initialized reader gets past it exactly when [offset > 0] and
    [(offset + size) mod 2^64 < file_size].  So in every non-empty file
    there is a pointer, with a 64-bit offset and a 32-bit size, whose bytes
    all lie at or past the end of the file and which ReadBlock still
    accepts. *)
Theorem ReadBlock_check_wraps r :
  state_ r = kInitialized ->
  (forall ptr,
     (exists res, ReadBlock r ptr = Return res) <->
     offset ptr > 0 /\ (offset ptr + size ptr) mod 2 ^ 64 < file_size_ r) /\
  (0 < file_size_ r < 2 ^ 64 ->
   exists ptr,
     0 < offset ptr < 2 ^ 64 /\ 0 < size ptr < 2 ^ 32 /\
     file_size_ r <= offset ptr /\
     ~ (offset ptr + size ptr < file_size_ r) /\
     exists res, ReadBlock r ptr = Return res).
Proof.
  intro Hs.
  assert (Hiff : forall ptr,
     (exists res, ReadBlock r ptr = Return res) <->
     offset ptr > 0 /\ (offset ptr + size ptr) mod 2 ^ 64 < file_size_ r).
  { intro ptr. pose proof (ReadBlock_cases r ptr Hs) as Hc.
    rewrite <- in_bounds_iff.
    destruct ((offset ptr >? 0)
              && (wrap64 (offset ptr + size ptr) <? file_size_ r)).
    - split; [reflexivity |]. intros _. rewrite Hc.
      repeat step_goal; eauto.
    - split; [| discriminate]. intros (res & Hres). congruence. }
  split; [exact Hiff |].
  intro Hsz. exists {| offset := 2 ^ 64 - 1; size := 1 |}. cbn [offset size].
  repeat split; try lia.
  apply Hiff. cbn [offset size].
  replace (2 ^ 64 - 1 + 1) with (1 * 2 ^ 64) by lia.
  rewrite Z.mod_mul by lia. lia.
Qed.

(** *** Index descent *)

Section SearchFacts.
Context {K B : Type} {index_if : IndexBlockReader K B}.

Lemma block_answers_unique r (key : K) (p : BlockPointer)
  (l l' : bool) (c c' : BlockPointer) (k k' : K) :
  block_answers r key p l c k -> block_answers r key p l' c' k' ->
  l = l' /\ c = c' /\ k = k'.
Proof.
  intros (d & b & HR & HP & HS & HL) (d' & b' & HR' & HP' & HS' & HL').
  rewrite HR in HR'. injection HR' as <-.
  rewrite HP in HP'. injection HP' as <-.
  rewrite HS in HS'. injection HS' as <- <-.
  repeat split. congruence.
Qed.

(** One level of the descent, read off the body of SearchDownward. *)
Lemma SearchDownward_level (fuel : nat) r (key : K) (p : BlockPointer) :
  (exists out,
     SearchDownward (S fuel) r key p = Some out /\
     (forall res, out <> Return (Success res)) /\
     (forall l c k, ~ block_answers r key p l c k)) \/
  (exists c k,
     block_answers r key p true c k /\
     SearchDownward (S fuel) r key p = Some (Return (Success (c, k)))) \/
  (exists c k,
     block_answers r key p false c k /\
     SearchDownward (S fuel) r key p = SearchDownward fuel r key c).
Proof.
  cbn [SearchDownward]. unfold block_answers.
  destruct (ReadBlock r p) as [f | [data | st]] eqn:HR.
  - left. eexists. split; [reflexivity |]. split; [discriminate |].
    intros l c k (d & b & H & _). discriminate.
  - destruct (idx_Parse (NewIndexBlockReader (slice data)))
      as [st blk] eqn:HP.
    destruct (ok st) eqn:Eok; cbn [negb].
    + apply ok_true in Eok. subst st.
      destruct (idx_Search blk key) as [st2 [c k]] eqn:HS.
      destruct (ok st2) eqn:Eok2; cbn [negb].
      * apply ok_true in Eok2. subst st2.
        destruct (idx_IsLeaf blk) eqn:HL.
        -- right; left. exists c, k. split; [| reflexivity].
           exists data, blk. auto.
        -- right; right. exists c, k. split; [| reflexivity].
           exists data, blk. auto.
      * left. eexists. split; [reflexivity |]. split; [discriminate |].
        intros l c' k' (d & b & H1 & H2 & H3 & _).
        injection H1 as <-. rewrite HP in H2. injection H2 as <-.
        rewrite HS in H3. injection H3 as E _ _.
        rewrite E in Eok2. discriminate.
    + left. eexists. split; [reflexivity |]. split; [discriminate |].
      intros l c k (d & b & H1 & H2 & _).
      injection H1 as <-. rewrite HP in H2. injection H2 as E _.
      rewrite E in Eok. discriminate.
  - left. eexists. split; [reflexivity |]. split; [discriminate |].
    intros l c k (d & b & H & _). discriminate.
Qed.

Lemma SearchDownward_finite r (key : K) (p : BlockPointer) (n : nat) :
  finite_depth r key p n ->
  forall fuel, (n < fuel)%nat ->
  exists out,
    SearchDownward fuel r key p = Some out /\
    forall res, out = Return (Success res) <-> leaf_reached r key p res.
Proof.
  induction 1 as [p Hstop | p child k n Hans Hdepth IH];
    intros [| fuel] Hfuel; try lia.
  - destruct (SearchDownward_level fuel r key p)
      as [(out & Hout & Hnot & Hnone) | [(c & k & Hans & Hout) |
                                          (c & k & Hans & _)]].
    + exists out. split; [assumption |]. intro res. split.
      * intro E. now contradiction (Hnot res).
      * intro Hl. inversion Hl; subst;
          match goal with
          | Ha : block_answers _ _ _ _ _ _ |- _ =>
              now contradiction (Hnone _ _ _ Ha)
          end.
    + eexists. split; [exact Hout |]. intro res. split.
      * intro E. injection E as <-. now constructor.
      * intro Hl. inversion Hl as [p' c' k' Ha | p' c' k' o Ha Hrest]; subst.
        -- destruct (block_answers_unique Hans Ha) as (_ & <- & <-).
           reflexivity.
        -- destruct (block_answers_unique Hans Ha) as (E & _).
           discriminate.
    + now contradiction (Hstop c k).
  - destruct (SearchDownward_level fuel r key p)
      as [(out & _ & _ & Hnone) | [(c & k' & Ha & _) |
                                    (c & k' & Ha & Hout)]].
    + now contradiction (Hnone _ _ _ Hans).
    + destruct (block_answers_unique Hans Ha) as (E & _). discriminate.
    + destruct (block_answers_unique Hans Ha) as (_ & <- & <-).
      destruct (IH fuel) as (out & Hrun & Hiff); [lia |].
      exists out. split; [congruence |].
      intro res. rewrite Hiff. split.
      * intro Hl. econstructor 2; eassumption.
      * intro Hl. inversion Hl as [p' c' k'' Hb | p' c' k'' o Hb Hrest];
          subst.
        -- destruct (block_answers_unique Hans Hb) as (E & _).
           discriminate.
        -- destruct (block_answers_unique Hans Hb) as (_ & <- & _).
           assumption.
Qed.

(** A depth that strictly falls at every internal block bounds the
    search from any block. *)
Lemma progress_gives_finite_depth r (key : K)
  (depth : BlockPointer -> nat) :
  makes_progress r key depth ->
  forall p, exists n, (n <= depth p)%nat /\ finite_depth r key p n.
Proof.
  intros Hprog p.
  remember (depth p) as m eqn:Hm. revert p Hm.
  induction m as [m IH] using lt_wf_ind. intros p ->.
  destruct (SearchDownward_level 0 r key p)
    as [(out & _ & _ & Hnone) | [(c & k & Ha & _) | (c & k & Ha & _)]].
  - exists 0%nat. split; [lia |]. constructor. intros c k Ha.
    now contradiction (Hnone _ _ _ Ha).
  - exists 0%nat. split; [lia |]. constructor. intros c' k' Hb.
    destruct (block_answers_unique Ha Hb) as (E & _). discriminate.
  - pose proof (Hprog _ _ _ Ha) as Hlt.
    destruct (IH (depth c) Hlt c eq_refl) as (n & Hn & Hfd).
    exists (S n). split; [lia |]. econstructor 2; eassumption.
Qed.

(** C8.  When the search for a key from a block passes finitely many
    internal blocks, each handing the search to the child its search
    returns, SearchDownward comes back as soon as the fuel exceeds that
    number, and it returns a pointer and key exactly when they are the
    answer of the leaf so reached; SearchPosition does the same from the
    root of the positional index.  A depth that strictly falls at every
    internal block is such a finite bound. *)
Theorem SearchDownward_reaches_leaf r (key : K) :
  (forall p n fuel,
     finite_depth r key p n -> (n < fuel)%nat ->
     exists out,
       SearchDownward fuel r key p = Some out /\
       forall res, out = Return (Success res) <-> leaf_reached r key p res) /\
  (forall root n fuel,
     state_ r = kInitialized ->
     GetIndexRootBlock r kPositionalIndexIdentifier
     = Return (Success root) ->
     finite_depth r key root n -> (n < fuel)%nat ->
     exists out,
       SearchPosition fuel r key = Some out /\
       forall res,
         out = Return (Success res) <-> leaf_reached r key root res) /\
  (forall depth p fuel,
     makes_progress r key depth -> (depth p < fuel)%nat ->
     exists out,
       SearchDownward fuel r key p = Some out /\
       forall res, out = Return (Success res) <-> leaf_reached r key p res).
Proof.
  split; [| split].
  - intros p n fuel Hfd Hfuel. eapply SearchDownward_finite; eassumption.
  - intros root n fuel Hs Hroot Hfd Hfuel. unfold SearchPosition.
    rewrite Hs, Hroot. cbn [State_eqb negb].
    eapply SearchDownward_finite; eassumption.
  - intros depth p fuel Hprog Hfuel.
    destruct (progress_gives_finite_depth Hprog p) as (n & Hn & Hfd).
    eapply SearchDownward_finite; [eassumption | lia].
Qed.
End SearchFacts.

(** *** Ordinal seek *)

Section IteratorFacts.
Context {C D : Type}.
Context {cursor_if : IndexTreeIterator (@CFileReader F HeaderPB FooterPB) C}.
Context {decoder_if : IntBlockDecoder D}.
Context {build : Build}.

Implicit Types it : @CFileIterator F HeaderPB FooterPB C D.

(** What a seek that returns has gone through. *)
Lemma SeekToOrdinal_inv it (ord : Z) (st : Status) it' :
  SeekToOrdinal it ord = Return (st, it') ->
  exists c st0,
    SeekAtOrBefore (idx_iter_ it) ord = (st0, c) /\
    reader_ it' = reader_ it /\ idx_iter_ it' = c /\
    ((st <> OK /\ seeked_ it' = false) \/
     (st = OK /\ st0 = OK /\ seeked_ it' = true /\
      exists data d,
        ReadBlock (reader_ it) (GetCurrentBlockPointer c)
        = Return (Success data) /\
        ParseHeader (NewIntBlockDecoder (slice data)) = (OK, d) /\
        dblk_data_ it' = data /\
        dblk_ it' = Some (SeekToPositionInBlock d
                            (wrap32 (ord - ordinal_pos d))) /\
        (NDEBUG = false ->
         ordinal_pos (SeekToPositionInBlock d
                        (wrap32 (ord - ordinal_pos d))) = ord))).
Proof.
  destruct it as [rd cur dd db sk].
  unfold SeekToOrdinal, set_seeked, set_idx_iter, set_dblk_data, set_dblk.
  cbn [reader_ idx_iter_ dblk_data_ dblk_ seeked_ slice].
  destruct (SeekAtOrBefore cur ord) as [st0 c] eqn:Hseek.
  intro H. exists c, st0. split; [reflexivity |].
  destruct (ok st0) eqn:Eok0; cbn [negb] in H.
  2:{ injection H as <- <-. cbn. repeat split. left.
      split; [intro; subst; discriminate | reflexivity]. }
  apply ok_true in Eok0. subst st0.
  destruct (ReadBlock rd (GetCurrentBlockPointer c))
    as [f | [data | st1]] eqn:HR; cbn [bind] in H; [discriminate | |].
  2:{ injection H as <- <-. cbn. repeat split. left. split; [| reflexivity].
      eapply ReadBlock_failure_not_ok; eassumption. }
  destruct (ParseHeader (NewIntBlockDecoder (slice data)))
    as [st2 d] eqn:HP.
  destruct (ok st2) eqn:Eok2; cbn [negb] in H.
  2:{ injection H as <- <-. cbn. repeat split. left.
      split; [intro; subst; discriminate | reflexivity]. }
  apply ok_true in Eok2. subst st2.
  destruct (ord >=? block_end d) eqn:Eend.
  { injection H as <- <-. cbn. repeat split. left.
    split; [discriminate | reflexivity]. }
  unfold DCHECK, CHECK in H.
  destruct NDEBUG eqn:En; cbn [bind] in H.
  - injection H as <- <-. cbn. repeat split. right.
    repeat split. exists data, d. repeat split; try assumption.
    discriminate.
  - destruct ((ord >=? ordinal_pos d) && (ord <? block_end d));
      cbn [bind] in H; [| discriminate].
    destruct (ord =? ordinal_pos
                       (SeekToPositionInBlock d
                          (wrap32 (ord - ordinal_pos d)))) eqn:Eq;
      cbn [bind] in H; [| discriminate].
    injection H as <- <-. cbn. repeat split. right.
    repeat split. exists data, d. repeat split; try assumption.
    intros _. apply Z.eqb_eq in Eq. now symmetry.
Qed.



Lemma block_end_le (d : D) :
  0 <= ordinal_pos d + Count d -> block_end d <= ordinal_pos d + Count d.
Proof.
  intro Hnn. unfold block_end.
  destruct (Z.eq_dec (2 ^ sum_bits) 0) as [E | E].
  - rewrite E, Z.mod_0_r. lia.
  - assert (0 <= 2 ^ sum_bits) by apply Z.pow_nonneg, Z.le_0_2.
    apply Z.mod_le; lia.
Qed.

(** C5.  A seek that returns an error leaves the seeked flag cleared.  So
    does, with NotFound, the seek of an ordinal at or past
    [ordinal_pos + count] of the data block that the at-or-before index
    seek leads to.  While the flag is cleared GetCurrentOrdinal is
    fatal. *)
Theorem failed_seek_leaves_not_seeked :
  (forall it ord st it',
     SeekToOrdinal it ord = Return (st, it') ->
     st <> OK -> seeked_ it' = false) /\
  (forall it ord c data d,
     SeekAtOrBefore (idx_iter_ it) ord = (OK, c) ->
     ReadBlock (reader_ it) (GetCurrentBlockPointer c)
     = Return (Success data) ->
     ParseHeader (NewIntBlockDecoder (slice data)) = (OK, d) ->
     0 <= ordinal_pos d -> 0 <= Count d ->
     ord >= ordinal_pos d + Count d ->
     exists msg it',
       SeekToOrdinal it ord = Return (NotFound msg, it') /\
       seeked_ it' = false) /\
  (forall it, seeked_ it = false -> GetCurrentOrdinal it = Fatal NotSeeked).
Proof.
  split; [| split].
  - intros it ord st it' H Hne. apply SeekToOrdinal_inv in H.
    destruct H as (c & st0 & _ & _ & _ & [(_ & Hs) | (Hok & _)]);
      [assumption | contradiction].
  - intros it ord c data d Hseek HR HP Hpos Hcount Hpast.
    destruct it as [rd cur dd db sk].
    cbn [reader_ idx_iter_] in *.
    unfold SeekToOrdinal, set_seeked, set_idx_iter, set_dblk_data, set_dblk.
    cbn [reader_ idx_iter_ dblk_data_ dblk_ seeked_ slice].
    rewrite Hseek. cbn [ok negb]. rewrite HR. cbn [bind].
    rewrite HP. cbn [ok negb].
    pose proof (block_end_le d) as Hle.
    replace (ord >=? block_end d) with true
      by (symmetry; rewrite Z.geb_leb; apply Z.leb_le; lia).
    eexists. eexists. split; reflexivity.
  - intros it Hs. unfold GetCurrentOrdinal. now rewrite Hs.
Qed.
End IteratorFacts.

End ReaderFacts.

(** * Further properties of the reader *)

Section MoreReaderFacts.
Context {consts : CFileConstants}.
Context {F HeaderPB FooterPB : Type}.
Context {file_if : RandomAccessFile F}.
Context {header_if : Message HeaderPB}.
Context {footer_if : FooterMessage FooterPB}.

Implicit Types r : @CFileReader F HeaderPB FooterPB.

Section WithEightByteMagic.
Hypothesis magic_size : length kMagicString = 8%nat.

(** The verdict of ParseMagicAndLength, case by case. *)
Lemma ParseMagicAndLength_cases (data : list byte) (len0 : Z) :
  (length data <> 12%nat \/ firstn 8 data <> kMagicString ->
   exists msg, ParseMagicAndLength data len0 = (Corruption msg, len0)) /\
  (length data = 12%nat -> firstn 8 data = kMagicString ->
   ParseMagicAndLength data len0
   = (if (le32 (skipn 8 data) <=? 0) || (le32 (skipn 8 data) >? 65536)
      then Corruption "invalid data size" else OK,
      le32 (skipn 8 data))).
Proof.
  unfold ParseMagicAndLength, kMagicAndLengthSize, kMaxHeaderFooterPBSize.
  destruct (Z.of_nat (length data) =? 12) eqn:Hsz; cbn [negb].
  - apply Z.eqb_eq in Hsz.
    assert (Hlen : length data = 12%nat) by lia.
    pose proof (magic_accepted magic_size data Hlen) as Hm.
    destruct (memcmp kMagicString data (length kMagicString) =? 0) eqn:Hc;
      cbn [negb].
    + assert (Hfirst : firstn 8 data = kMagicString) by now apply Hm.
      rewrite magic_size, DecodeFixed32_le32. split.
      * intros [H | H]; contradiction.
      * intros _ _. change (64 * 1024) with 65536.
        now destruct (_ || _).
    + split; [eauto |].
      intros _ Hfirst. apply Hm in Hfirst. discriminate.
  - apply Z.eqb_neq in Hsz. split; [eauto |].
    intro Hlen. exfalso. apply Hsz. lia.
Qed.

Lemma preamble_size_and_magic_dec (data : list byte) :
  {length data = 12%nat /\ firstn 8 data = kMagicString} +
  {length data <> 12%nat \/ firstn 8 data <> kMagicString}.
Proof.
  destruct (Nat.eq_dec (length data) 12) as [Hl | Hl]; [| now right; left].
  destruct (list_eq_dec Byte.byte_eq_dec (firstn 8 data) kMagicString)
    as [Hm | Hm]; [now left | now right; right].
Qed.

(** What an OK from ReadMagicAndLength stands for. *)
Lemma ReadMagicAndLength_ok_means r (off len n : Z) :
  ReadMagicAndLength r off len = (OK, n) ->
  exists s,
    Read (file_ r) off 12 = (OK, s) /\
    length s = 12%nat /\ firstn 8 s = kMagicString /\
    n = le32 (skipn 8 s) /\ 0 < n <= 65536.
Proof.
  unfold ReadMagicAndLength, kMagicAndLengthSize.
  destruct (Read (file_ r) off 12) as [st s].
  destruct (ok st) eqn:Eok; cbn [negb].
  2:{ intro H. injection H as -> _. discriminate. }
  apply ok_true in Eok. subst st. intro H.
  destruct (ParseMagicAndLength_cases s len) as [Hrej Hacc].
  destruct (preamble_size_and_magic_dec s) as [[Hl Hm] | Hbad].
  - rewrite (Hacc Hl Hm) in H.
    destruct ((le32 (skipn 8 s) <=? 0) || (le32 (skipn 8 s) >? 65536))
      eqn:Hb; [discriminate |].
    injection H as <-. exists s. repeat split; try assumption.
    + apply orb_false_iff in Hb. destruct Hb as [Hb _].
      apply Z.leb_gt in Hb. exact Hb.
    + apply orb_false_iff in Hb. destruct Hb as [_ Hb].
      rewrite Z.gtb_ltb in Hb. now apply Z.ltb_ge in Hb.
  - destruct (Hrej Hbad) as (msg & E). rewrite E in H. discriminate.
Qed.

(** X1.  ParseMagicAndLength leaves the out-parameter as it found it when
    the size or the magic is wrong, and otherwise writes the decoded
    length into it, also when it then refuses that length. *)
Theorem ParseMagicAndLength_out_parameter (data : list byte) (len0 : Z) :
  (length data <> 12%nat \/ firstn 8 data <> kMagicString ->
   snd (ParseMagicAndLength data len0) = len0) /\
  (length data = 12%nat -> firstn 8 data = kMagicString ->
   snd (ParseMagicAndLength data len0) = le32 (skipn 8 data)).
Proof.
  destruct (ParseMagicAndLength_cases data len0) as [Hrej Hacc]. split.
  - intro Hbad. destruct (Hrej Hbad) as (msg & E). now rewrite E.
  - intros Hl Hm. now rewrite (Hacc Hl Hm).
Qed.

(** X2.  ReadMagicAndLength hands back the failure of the file read
    unchanged and leaves the length alone; it returns OK exactly when the
    read was OK and brought twelve bytes that start with the magic and
    carry a length from 1 to 65536, and that length is what it writes. *)
Theorem ReadMagicAndLength_accepts r (off len : Z) :
  (forall st s,
     Read (file_ r) off 12 = (st, s) -> st <> OK ->
     ReadMagicAndLength r off len = (st, len)) /\
  (forall n,
     ReadMagicAndLength r off len = (OK, n) <->
     exists s,
       Read (file_ r) off 12 = (OK, s) /\ ~ preamble_rejected s /\
       n = le32 (skipn 8 s)) /\
  (forall n, ReadMagicAndLength r off len = (OK, n) -> 0 < n <= 65536).
Proof.
  split; [| split].
  - intros st s HR Hne. unfold ReadMagicAndLength, kMagicAndLengthSize.
    rewrite HR. destruct (ok st) eqn:Eok;
      [apply ok_true in Eok; contradiction | reflexivity].
  - intro n. split.
    + intro H. apply ReadMagicAndLength_ok_means in H.
      destruct H as (s & HR & Hl & Hm & -> & Hn).
      exists s. repeat split; try assumption.
      unfold preamble_rejected. intros [H | [H | [H | H]]];
        try contradiction; lia.
    + intros (s & HR & Hnot & ->).
      unfold ReadMagicAndLength, kMagicAndLengthSize. rewrite HR.
      cbn [ok negb].
      destruct (ParseMagicAndLength_cases s len) as [_ Hacc].
      destruct (preamble_size_and_magic_dec s) as [[Hl Hm] | Hbad].
      * rewrite (Hacc Hl Hm).
        destruct ((le32 (skipn 8 s) <=? 0) || (le32 (skipn 8 s) >? 65536))
          eqn:Hb; [| reflexivity].
        exfalso. apply Hnot. unfold preamble_rejected.
        apply orb_true_iff in Hb. destruct Hb as [Hb | Hb].
        -- apply Z.leb_le in Hb. pose proof (le32_range (skipn 8 s)).
           right; right; left. lia.
        -- rewrite Z.gtb_ltb in Hb. apply Z.ltb_lt in Hb.
           right; right; right. lia.
      * exfalso. apply Hnot. unfold preamble_rejected.
        destruct Hbad as [H | H]; [now left | now right; left].
  - intros n H. apply ReadMagicAndLength_ok_means in H.
    destruct H as (s & _ & _ & _ & _ & Hn). exact Hn.
Qed.

(** X3.  ReadAndParseHeader returns OK only after the first frame was
    accepted, with a length from 1 to 65536, and the read of that many
    bytes at offset 12 was OK.  A frame that is not accepted comes back
    with its status and the reader as it was; a failed payload read comes
    back with its status and a fresh header message.  When the payload
    read brings all the bytes asked for, the parse of these bytes decides:
    OK and the parsed header, or Corruption. *)
Theorem ReadAndParseHeader_ok (hs : Z) r :
  (forall r',
     ReadAndParseHeader hs r = Return (OK, r') ->
     exists n payload,
       ReadMagicAndLength r 0 hs = (OK, n) /\ 0 < n <= 65536 /\
       Read (file_ r) 12 n = (OK, payload)) /\
  (forall st n,
     state_ r = kUninitialized ->
     ReadMagicAndLength r 0 hs = (st, n) -> st <> OK ->
     ReadAndParseHeader hs r = Return (st, r)) /\
  (forall n st payload,
     state_ r = kUninitialized ->
     ReadMagicAndLength r 0 hs = (OK, n) ->
     Read (file_ r) 12 n = (st, payload) ->
     (st <> OK ->
      ReadAndParseHeader hs r = Return (st, set_header r New)) /\
     (st = OK -> Z.of_nat (length payload) = n ->
      forall parsed h,
        ParseFromArray payload n = (parsed, h) ->
        ReadAndParseHeader hs r
        = Return (if parsed then OK
                  else Corruption "Invalid cfile pb header",
                  set_header r h))).
Proof.
  split; [| split].
  - intros r' H. unfold ReadAndParseHeader, CHECK, bind in H.
    destruct (State_eqb (state_ r) kUninitialized); [| discriminate].
    destruct (ReadMagicAndLength r 0 hs) as [st n] eqn:Hframe.
    destruct (ok st) eqn:Eok; cbn [negb] in H.
    2:{ injection H as -> _. discriminate. }
    apply ok_true in Eok. subst st.
    destruct (ReadMagicAndLength_ok_means _ _ _ Hframe)
      as (_ & _ & _ & _ & _ & Hbound).
    cbn [set_header file_] in H. unfold kMagicAndLengthSize in H.
    destruct (Read (file_ r) 12 n) as [st payload] eqn:HR.
    destruct (ok st) eqn:Eok; cbn [negb] in H.
    2:{ injection H as -> _. discriminate. }
    apply ok_true in Eok. subst st.
    exists n, payload.
    split; [reflexivity | split; [exact Hbound | exact HR]].
  - intros st n Hs Hframe Hne. unfold ReadAndParseHeader.
    rewrite Hs, Hframe. cbn [State_eqb CHECK bind].
    destruct (ok st) eqn:Eok;
      [apply ok_true in Eok; contradiction | reflexivity].
  - intros n st payload Hs Hframe HR.
    unfold ReadAndParseHeader, kMagicAndLengthSize.
    rewrite Hs, Hframe. cbn [State_eqb CHECK bind ok negb set_header file_].
    rewrite HR. split.
    + intro Hne. destruct (ok st) eqn:Eok;
        [apply ok_true in Eok; contradiction | reflexivity].
    + intros -> _ parsed h HP. cbn [ok negb]. rewrite HP.
      destruct parsed; reflexivity.
Qed.
End WithEightByteMagic.

(** X4.  What the uninitialised [header_size] holds never shows in the
    result of Init.  What the uninitialised [footer_size] holds does not
    show either when the read of the last frame is OK and brings twelve
    bytes that start with the magic. *)
Theorem Init_ignores_uninitialised_locals (hs hs' fs fs' : Z) r :
  length kMagicString = 8%nat ->
  ReadAndParseHeader hs r = ReadAndParseHeader hs' r /\
  Init hs fs r = Init hs' fs r /\
  (forall s,
     Read (file_ r) (file_size_ r - 12) 12 = (OK, s) ->
     length s = 12%nat -> firstn 8 s = kMagicString ->
     Init hs fs r = Init hs' fs' r).
Proof.
  intro magic_size.
  assert (Hhdr : ReadAndParseHeader hs r = ReadAndParseHeader hs' r).
  { unfold ReadAndParseHeader.
    destruct (ReadMagicAndLength_ok_len r 0 hs hs') as [Hfst Hok].
    destruct (ReadMagicAndLength r 0 hs) as [st1 n1] eqn:E1.
    destruct (ReadMagicAndLength r 0 hs') as [st2 n2] eqn:E2.
    cbn [fst] in *. subst st2.
    destruct (ok st1) eqn:Eok; cbn [negb]; [| reflexivity].
    apply ok_true in Eok. specialize (Hok Eok). now injection Hok as <-. }
  split; [exact Hhdr |].
  split; [unfold Init; now rewrite Hhdr |].
  intros s HR Hlen Hmagic. unfold Init. rewrite Hhdr.
  destruct (CHECK (State_eqb (state_ r) kUninitialized)
              ShouldBeUninitialized) as [f | []]; cbn [bind];
    [reflexivity |].
  destruct (ReadAndParseHeader hs' r) as [f | [st r1]] eqn:Eh; cbn [bind];
    [reflexivity |].
  destruct (negb (ok st)); [reflexivity |].
  pose proof (ReadAndParseHeader_inv _ _ Eh) as (_ & Hf & Hsz & _).
  assert (Hfoot : ReadAndParseFooter fs r1 = ReadAndParseFooter fs' r1).
  { unfold ReadAndParseFooter, ReadMagicAndLength, kMagicAndLengthSize.
    rewrite Hf, Hsz, HR. cbn [ok negb].
    destruct (ParseMagicAndLength_cases magic_size s fs) as [_ Hw].
    destruct (ParseMagicAndLength_cases magic_size s fs') as [_ Hw'].
    rewrite (Hw Hlen Hmagic), (Hw' Hlen Hmagic). reflexivity. }
  now rewrite Hfoot.
Qed.

(** X5.  On a file of at most 24 bytes Init never returns OK: it returns
    the error of the header step, or, when the header step succeeds, it is
    fatal with "file too short". *)
Theorem Init_short_file (hs fs : Z) r :
  state_ r = kUninitialized -> file_size_ r <= 24 ->
  (forall st r',
     Init hs fs r = Return (st, r') ->
     st <> OK /\ ReadAndParseHeader hs r = Return (st, r')) /\
  (forall r1,
     ReadAndParseHeader hs r = Return (OK, r1) ->
     Init hs fs r = Fatal FileTooShort).
Proof.
  intros Hs Hsz. split.
  - intros st r' H. apply Init_inv in H.
    destruct H as (_ & [(Hne & _ & [Hh | (r1 & Hh & Hf)]) |
                        (_ & r1 & r2 & Hh & Hf & _)]).
    + split; assumption.
    + apply ReadAndParseHeader_inv in Hh. destruct Hh as (_ & _ & E & _).
      apply ReadAndParseFooter_inv in Hf. destruct Hf as (_ & Hgt & _).
      lia.
    + apply ReadAndParseHeader_inv in Hh. destruct Hh as (_ & _ & E & _).
      apply ReadAndParseFooter_inv in Hf. destruct Hf as (_ & Hgt & _).
      lia.
  - intros r1 Hh. unfold Init. rewrite Hs, Hh.
    cbn [State_eqb CHECK bind ok negb].
    pose proof (ReadAndParseHeader_inv _ _ Hh) as (_ & _ & E & Hs1).
    unfold ReadAndParseFooter, kMagicAndLengthSize.
    rewrite Hs1, Hs. cbn [State_eqb CHECK bind].
    replace (file_size_ r1 >? 12 * 2) with false
      by (symmetry; rewrite Z.gtb_ltb; apply Z.ltb_ge; lia).
    reflexivity.
Qed.

(** X6.  A reader that Init has initialized is over the same file with the
    same size, the size is more than 24, and both its header and its
    footer message are set. *)
Theorem Init_ok_invariant (hs fs : Z) r r' :
  Init hs fs r = Return (OK, r') ->
  file_ r' = file_ r /\ file_size_ r' = file_size_ r /\
  file_size_ r' > 24 /\
  header_ r' <> None /\ footer_ r' <> None.
Proof.
  intro H. apply Init_inv in H.
  destruct H as (_ & [(Hne & _) | (_ & r1 & r2 & Hh & Hf & ->)]);
    [now contradiction Hne |].
  assert (Hhead : header_ r1 <> None).
  { unfold ReadAndParseHeader, CHECK, bind in Hh.
    repeat step_in Hh; try discriminate;
      inversion Hh; subst; cbn in *; congruence. }
  assert (Hkeep : header_ r2 = header_ r1).
  { unfold ReadAndParseFooter, CHECK, bind in Hf.
    repeat step_in Hf; try discriminate;
      inversion Hf; subst; cbn in *; congruence. }
  apply ReadAndParseHeader_inv in Hh. destruct Hh as (_ & Hf1 & Hsz1 & _).
  apply ReadAndParseFooter_inv in Hf.
  destruct Hf as (_ & Hgt & (Hf2 & Hsz2 & _) & Hfoot).
  cbn [set_state file_ file_size_ header_ footer_].
  repeat split; try congruence; lia.
Qed.

(** X7.  When the last frame is accepted with length [n],
    ReadAndParseFooter reads [n] bytes: at offset [file_size - 12 - n],
    right before the last frame, when [n <= file_size - 12]; and when [n]
    is larger, at the wrapped offset [2^64 + file_size - 12 - n], which
    lies past the end of the file.  A failure of that read is what it
    returns.  When the read brings all the bytes asked for, the parse of
    these bytes decides: OK and the parsed footer, or Corruption. *)
Theorem ReadAndParseFooter_spec (fs : Z) r (n : Z) :
  length kMagicString = 8%nat ->
  state_ r = kUninitialized -> 24 < file_size_ r < 2 ^ 64 ->
  ReadMagicAndLength r (file_size_ r - 12) fs = (OK, n) ->
  0 < n <= 65536 /\
  exists off,
    (n <= file_size_ r - 12 ->
     off = file_size_ r - 12 - n /\ 0 <= off /\ off + n = file_size_ r - 12)
    /\
    (n > file_size_ r - 12 ->
     off = 2 ^ 64 + file_size_ r - 12 - n /\ file_size_ r <= off) /\
    forall st payload,
      Read (file_ r) off n = (st, payload) ->
      (st <> OK -> ReadAndParseFooter fs r = Return (st, set_footer r New))
      /\
      (st = OK -> Z.of_nat (length payload) = n ->
       forall parsed f,
         ParseFromArray payload n = (parsed, f) ->
         ReadAndParseFooter fs r
         = Return (if parsed then OK
                   else Corruption "Invalid cfile pb footer",
                   set_footer r f)).
Proof.
  intros magic_size Hs Hsz Hframe.
  destruct (ReadMagicAndLength_ok_means magic_size _ _ _ Hframe)
    as (_ & _ & _ & _ & _ & Hn).
  split; [exact Hn |].
  exists (wrap64 (file_size_ r - 12 - n)). unfold wrap64.
  split; [| split].
  - intro Hfit. rewrite Z.mod_small by lia. lia.
  - intro Hbig.
    assert (E : (file_size_ r - 12 - n) mod 2 ^ 64
                = 2 ^ 64 + file_size_ r - 12 - n).
    { symmetry. apply Z.mod_unique with (q := -1); lia. }
    rewrite E. lia.
  - intros st payload HR.
    unfold ReadAndParseFooter, kMagicAndLengthSize, wrap64.
    rewrite Hs. cbn [State_eqb CHECK bind].
    replace (file_size_ r >? 12 * 2) with true
      by (symmetry; rewrite Z.gtb_ltb; apply Z.ltb_lt; lia).
    cbn [bind]. rewrite Hframe. cbn [set_footer file_ file_size_].
    rewrite HR. split.
    + intro Hne. destruct (ok st) eqn:Eok;
        [apply ok_true in Eok; contradiction | reflexivity].
    + intros -> _ parsed f HP. cbn [ok negb]. rewrite HP.
      destruct parsed; reflexivity.
Qed.

(** *** Named index roots, again *)

Lemma GetIndexRootBlock_loop_sound (infos : list BTreeInfoPB) (id : string) :
  match GetIndexRootBlock_loop infos id with
  | Success p =>
      exists info, In info infos /\ identifier (metadata info) = id /\
                   p = BlockPointer_of_pb (root_block info)
  | Failure st =>
      st = NotFound "no such index" /\
      forall info, In info infos -> identifier (metadata info) <> id
  end.
Proof.
  induction infos as [| i infos IH]; cbn [GetIndexRootBlock_loop].
  - split; [reflexivity |]. intros info [].
  - destruct (String.eqb_spec (identifier (metadata i)) id) as [E | E].
    + exists i. repeat split; [now left | exact E].
    + destruct (GetIndexRootBlock_loop infos id) as [p | st].
      * destruct IH as (info & Hin & Hid & Hp). exists info.
        repeat split; [now right | assumption | assumption].
      * destruct IH as [Hst Hall]. split; [assumption |].
        intros info [<- | Hin]; [exact E | now apply Hall].
Qed.

(** X8.  On a reader that Init has initialized GetIndexRootBlock is never
    fatal; a pointer it returns is the root of a descriptor of the footer
    that carries the identifier asked for; and the only failure it
    reports is NotFound, which it reports only when no descriptor carries
    that identifier. *)
Theorem GetIndexRootBlock_sound (hs fs : Z) r r' (id : string) :
  Init hs fs r = Return (OK, r') ->
  exists f,
    footer_ r' = Some f /\
    (exists res, GetIndexRootBlock r' id = Return res) /\
    (forall p,
       GetIndexRootBlock r' id = Return (Success p) ->
       exists info, In info (btrees f) /\ identifier (metadata info) = id /\
                    p = BlockPointer_of_pb (root_block info)) /\
    (forall st,
       GetIndexRootBlock r' id = Return (Failure st) ->
       st = NotFound "no such index" /\
       forall info, In info (btrees f) -> identifier (metadata info) <> id).
Proof.
  intro H. apply Init_ok_footer in H. destruct H as (_ & f & Hf).
  exists f. split; [assumption |].
  unfold GetIndexRootBlock. rewrite Hf.
  pose proof (GetIndexRootBlock_loop_sound (btrees f) id) as Hsound.
  split; [eauto |]. split.
  - intros p H. injection H as H. now rewrite H in Hsound.
  - intros st H. injection H as H. now rewrite H in Hsound.
Qed.

(** *** Descent without a bound *)

Section MoreSearchFacts.
Context {K B : Type} {index_if : IndexBlockReader K B}.

(** X9.  When the footer of an initialized reader names no positional
    index, SearchPosition fails with NotFound, whatever the bound on the
    descent, and so does NewIteratorByPos. *)
Theorem no_positional_index (hs fs : Z) r r' (f : FooterPB)
  (C D : Type) (cursor_if : IndexTreeIterator CFileReader C)
  (decoder_if : IntBlockDecoder D) :
  Init hs fs r = Return (OK, r') ->
  footer_ r' = Some f ->
  (forall info, In info (btrees f) ->
                identifier (metadata info) <> kPositionalIndexIdentifier) ->
  (forall fuel (pos : K),
     SearchPosition fuel r' pos
     = Some (Return (Failure (NotFound "no such index")))) /\
  NewIteratorByPos (C := C) (D := D) r'
  = Return (Failure (NotFound "no such index")).
Proof.
  intros H Hf Hnone.
  apply Init_ok_footer in H. destruct H as (Hs & _).
  assert (Hroot : GetIndexRootBlock r' kPositionalIndexIdentifier
                  = Return (Failure (NotFound "no such index"))).
  { unfold GetIndexRootBlock. rewrite Hf.
    now rewrite GetIndexRootBlock_loop_none. }
  split.
  - intros fuel pos. unfold SearchPosition. now rewrite Hs, Hroot.
  - unfold NewIteratorByPos. now rewrite Hroot.
Qed.

(** X10.  SearchDownward comes back only from a block of finite depth,
    and the depth is below the fuel it was given: with C8, it comes back
    for some fuel exactly when the search path is finite. *)
Theorem SearchDownward_returns_only_finite r (key : K) :
  forall fuel p out,
    SearchDownward fuel r key p = Some out ->
    exists n, (n < fuel)%nat /\ finite_depth r key p n.
Proof.
  induction fuel as [| fuel IH]; intros p out H; [discriminate |].
  destruct (SearchDownward_level fuel r key p)
    as [(o & _ & _ & Hnone) | [(c & k & Ha & _) | (c & k & Ha & Hrun)]].
  - exists 0%nat. split; [lia |]. constructor. intros c k Ha.
    now contradiction (Hnone _ _ _ Ha).
  - exists 0%nat. split; [lia |]. constructor. intros c' k' Hb.
    destruct (block_answers_unique Ha Hb) as (E & _). discriminate.
  - rewrite Hrun in H. destruct (IH c out H) as (n & Hn & Hfd).
    exists (S n). split; [lia |]. econstructor 2; eassumption.
Qed.

(** X12.  From a block whose search sends the key back to the block
    itself SearchDownward does not come back, whatever the fuel. *)
Theorem SearchDownward_self_loop r (key : K) (p : BlockPointer) (k : K) :
  block_answers r key p false p k ->
  forall fuel, SearchDownward fuel r key p = None.
Proof.
  intros Hloop fuel. induction fuel as [| fuel IH]; [reflexivity |].
  destruct (SearchDownward_level fuel r key p)
    as [(o & _ & _ & Hnone) | [(c & k' & Ha & _) | (c & k' & Ha & Hrun)]].
  - now contradiction (Hnone _ _ _ Hloop).
  - destruct (block_answers_unique Hloop Ha) as (E & _). discriminate.
  - destruct (block_answers_unique Hloop Ha) as (_ & <- & _).
    now rewrite Hrun.
Qed.

(** X13.  A child pointer that the bounds check of ReadBlock refuses makes
    the whole descent fatal: so does, on an initialized reader, a child
    at offset 0. *)
Theorem SearchDownward_stray_child r (key : K) (p child : BlockPointer)
  (k : K) (fuel : nat) :
  state_ r = kInitialized ->
  block_answers r key p false child k ->
  offset child = 0 \/
  (offset child + size child) mod 2 ^ 64 >= file_size_ r ->
  SearchDownward (S (S fuel)) r key p = Some (Fatal BadOffset).
Proof.
  intros Hs Ha Hbad.
  destruct (SearchDownward_level (S fuel) r key p)
    as [(o & _ & _ & Hnone) | [(c & k' & Hb & _) | (c & k' & Hb & Hrun)]].
  - now contradiction (Hnone _ _ _ Ha).
  - destruct (block_answers_unique Ha Hb) as (E & _). discriminate.
  - destruct (block_answers_unique Ha Hb) as (_ & <- & _).
    rewrite Hrun. cbn [SearchDownward].
    pose proof (ReadBlock_cases r child Hs) as Hc.
    pose proof (in_bounds_iff r child) as Hin.
    destruct ((offset child >? 0)
              && (wrap64 (offset child + size child) <? file_size_ r)).
    + exfalso. destruct (proj1 Hin eq_refl) as [Hpos Hend]. lia.
    + now rewrite Hc.
Qed.
End MoreSearchFacts.

(** *** Iterators, again *)

Section MoreIteratorFacts.
Context {C D : Type}.
Context {cursor_if : IndexTreeIterator (@CFileReader F HeaderPB FooterPB) C}.
Context {decoder_if : IntBlockDecoder D}.
Context {build : Build}.

Implicit Types it : @CFileIterator F HeaderPB FooterPB C D.

(** X14.  Every iterator in use stays on the reader it was built on; while
    its seeked flag is set it holds a decoder, and the block it caches is
    the one ReadBlock returns for the pointer its cursor stands on.  So
    GetCurrentOrdinal is fatal with "not seeked" or returns an ordinal: it
    never reaches for a decoder that is not there. *)
Theorem iterator_invariant r (root : BlockPointer) it :
  in_use r root it ->
  reader_ it = r /\
  (seeked_ it = true ->
   exists d,
     dblk_ it = Some d /\
     ReadBlock r (GetCurrentBlockPointer (idx_iter_ it))
     = Return (Success (dblk_data_ it))) /\
  (GetCurrentOrdinal it = Fatal NotSeeked \/
   exists n, GetCurrentOrdinal it = Return n).
Proof.
  intro Huse.
  assert (Hinv : reader_ it = r /\
                 (seeked_ it = true ->
                  exists d,
                    dblk_ it = Some d /\
                    ReadBlock r (GetCurrentBlockPointer (idx_iter_ it))
                    = Return (Success (dblk_data_ it)))).
  { induction Huse as [| it ord st it' Huse [IHr IHs] Hseek].
    - split; [reflexivity |]. cbn. discriminate.
    - apply SeekToOrdinal_inv in Hseek.
      destruct Hseek as (c & st0 & _ & Hr & Hc & Hcase).
      split; [congruence |]. intro Hon.
      destruct Hcase as [(_ & Hoff) | (_ & _ & _ & data & d & HR & _ & Hdata
                                       & Hd & _)];
        [congruence |].
      eexists. split; [exact Hd |]. rewrite Hc, Hdata, <- IHr. exact HR. }
  destruct Hinv as [Hr Hs]. split; [exact Hr |]. split; [exact Hs |].
  unfold GetCurrentOrdinal. destruct (seeked_ it) eqn:E; cbn [CHECK bind].
  - right. destruct (Hs eq_refl) as (d & Hd & _). rewrite Hd. eauto.
  - now left.
Qed.

(** X15.  After a seek that returned OK the ordinal is below the end of
    the block the cursor stands on, as the machine computes that end, and
    so below [ordinal_pos + count] when these are not negative; in a build
    with DCHECK on it is also at or past the first ordinal of the
    block. *)
Theorem successful_seek_within_block it (ord : Z) it' :
  SeekToOrdinal it ord = Return (OK, it') ->
  exists data d,
    ReadBlock (reader_ it) (GetCurrentBlockPointer (idx_iter_ it'))
    = Return (Success data) /\
    ParseHeader (NewIntBlockDecoder (slice data)) = (OK, d) /\
    ord < block_end d /\
    (0 <= ordinal_pos d + Count d -> ord < ordinal_pos d + Count d) /\
    (NDEBUG = false -> ordinal_pos d <= ord).
Proof.
  destruct it as [rd cur dd db sk].
  unfold SeekToOrdinal, set_seeked, set_idx_iter, set_dblk_data, set_dblk,
    DCHECK, CHECK, bind.
  cbn [reader_ idx_iter_ dblk_data_ dblk_ seeked_ slice].
  destruct (SeekAtOrBefore cur ord) as [st0 c].
  destruct (ok st0) eqn:Eok0; cbn [negb];
    [| intro H; injection H as -> _; discriminate].
  destruct (ReadBlock rd (GetCurrentBlockPointer c))
    as [f | [data | st1]] eqn:HR; [discriminate | |].
  2:{ intro H. injection H as -> _.
      now contradiction (ReadBlock_failure_not_ok _ _ HR). }
  destruct (ParseHeader (NewIntBlockDecoder (slice data)))
    as [st2 d] eqn:HP.
  destruct (ok st2) eqn:Eok2; cbn [negb];
    [| intro H; injection H as -> _; discriminate].
  apply ok_true in Eok2. subst st2.
  destruct (ord >=? block_end d) eqn:Eend; [discriminate |].
  rewrite Z.geb_leb in Eend. apply Z.leb_gt in Eend.
  intro H.
  assert (Hfirst : NDEBUG = false -> ordinal_pos d <= ord).
  { intro Hdbg. rewrite Hdbg in H.
    destruct (ord >=? ordinal_pos d) eqn:Ege; cbn [andb] in H;
      [| discriminate].
    rewrite Z.geb_leb in Ege. now apply Z.leb_le in Ege. }
  assert (Hit : idx_iter_ it' = c).
  { destruct NDEBUG; repeat step_in H; try discriminate;
      injection H as <-; reflexivity. }
  rewrite Hit. exists data, d. repeat split; try assumption.
  intro Hnn. pose proof (block_end_le d Hnn). lia.
Qed.

(** X16.  A seek that fails in the index returns the status of the cursor
    and leaves the cached block and decoder as they were.  A seek whose
    cursor stands on a pointer that the bounds check of ReadBlock refuses
    is fatal. *)
Theorem SeekToOrdinal_index_failures it (ord : Z) (st : Status) (c : C) :
  SeekAtOrBefore (idx_iter_ it) ord = (st, c) ->
  (st <> OK ->
   exists it',
     SeekToOrdinal it ord = Return (st, it') /\
     dblk_data_ it' = dblk_data_ it /\ dblk_ it' = dblk_ it /\
     idx_iter_ it' = c /\ seeked_ it' = false) /\
  (st = OK -> state_ (reader_ it) = kInitialized ->
   offset (GetCurrentBlockPointer c) = 0 \/
   (offset (GetCurrentBlockPointer c) + size (GetCurrentBlockPointer c))
   mod 2 ^ 64 >= file_size_ (reader_ it) ->
   SeekToOrdinal it ord = Fatal BadOffset).
Proof.
  intro Hseek. destruct it as [rd cur dd db sk].
  unfold SeekToOrdinal, set_seeked, set_idx_iter.
  cbn [reader_ idx_iter_ dblk_data_ dblk_ seeked_] in *.
  rewrite Hseek. split.
  - intro Hne. destruct (ok st) eqn:Eok;
      [apply ok_true in Eok; contradiction |].
    cbn [negb]. eexists. split; [reflexivity |]. repeat split.
  - intros -> Hs Hbad. cbn [ok negb].
    pose proof (ReadBlock_cases rd (GetCurrentBlockPointer c) Hs) as Hc.
    pose proof (in_bounds_iff rd (GetCurrentBlockPointer c)) as Hin.
    destruct ((offset (GetCurrentBlockPointer c) >? 0)
              && (wrap64 (offset (GetCurrentBlockPointer c)
                          + size (GetCurrentBlockPointer c))
                  <? file_size_ rd)).
    + exfalso. destruct (proj1 Hin eq_refl) as [Hpos Hend]. lia.
    + now rewrite Hc.
Qed.

(** X17.  When the footer of a reader has a descriptor named
    as the positional index, NewIteratorByPos returns an iterator over the
    root of the first such descriptor: an iterator in use, on that reader,
    not yet seeked, on which GetCurrentOrdinal is fatal. *)
Theorem NewIteratorByPos_fresh r' (f : FooterPB)
  (pre post : list BTreeInfoPB) (info : BTreeInfoPB) :
  footer_ r' = Some f ->
  btrees f = pre ++ info :: post ->
  (forall i, In i pre ->
             identifier (metadata i) <> kPositionalIndexIdentifier) ->
  identifier (metadata info) = kPositionalIndexIdentifier ->
  exists it,
    NewIteratorByPos r' = Return (Success it) /\
    in_use r' (BlockPointer_of_pb (root_block info)) it /\
    reader_ it = r' /\
    idx_iter_ it
    = NewIndexTreeIterator r' (BlockPointer_of_pb (root_block info)) /\
    seeked_ it = false /\
    GetCurrentOrdinal it = Fatal NotSeeked.
Proof.
  intros Hf Hlist Hpre Hid.
  unfold NewIteratorByPos, GetIndexRootBlock. rewrite Hf, Hlist.
  rewrite GetIndexRootBlock_loop_first by assumption. cbn [bind].
  eexists. split; [reflexivity |]. repeat split. constructor.
Qed.
End MoreIteratorFacts.

End MoreReaderFacts.

(** ** The statements at work on the small cfile *)

Section OnTheSmallFile.
Import Fixture Damaged.

Lemma ready_is_initialized : Init 0 0 fresh = Return (OK, ready).
Proof. vm_compute. reflexivity. Qed.

Lemma ready_state : state_ ready = kInitialized.
Proof. vm_compute. reflexivity. Qed.

Lemma ready_size : file_size_ ready = 47.
Proof. vm_compute. reflexivity. Qed.

(** C1, on the code.  The last frame of [cfile_bad_footer_length] has the
    magic and a length of zero: reading it fails with Corruption, yet Init
    goes on with that length and initializes the reader.  The last frame of
    [cfile_bad_footer_magic] has a wrong magic: reading it fails before any
    length is written, and what Init returns then follows what the
    uninitialised local happened to hold. *)
Theorem Init_drops_footer_preamble_failure :
  (forall hs fs,
     fst (ReadMagicAndLength fresh_bad_footer_length (47 - 12) fs)
     = Corruption "invalid data size" /\
     exists r', Init hs fs fresh_bad_footer_length = Return (OK, r') /\
                state_ r' = kInitialized) /\
  (forall fs,
     ReadMagicAndLength fresh_bad_footer_magic (47 - 12) fs
     = (Corruption "bad magic", fs)) /\
  (exists r', Init 0 3 fresh_bad_footer_magic = Return (OK, r') /\
              state_ r' = kInitialized) /\
  (exists r', Init 0 2 fresh_bad_footer_magic
              = Return (Corruption "Invalid cfile pb footer", r')).
Proof.
  split; [| split; [| split]].
  - intros hs fs. split.
    + vm_compute. reflexivity.
    + eexists. split; vm_compute; reflexivity.
  - intro fs. vm_compute. reflexivity.
  - eexists. split; vm_compute; reflexivity.
  - eexists. vm_compute. reflexivity.
Qed.

Lemma ParseMagicAndLength_spec_witness :
  length (kMagicString (CFileConstants := consts)) = 8%nat /\
  ParseMagicAndLength (magic ++ [x0a; x00; x00; x00]) 7 = (OK, 10) /\
  IsCorruption (fst (ParseMagicAndLength (magic ++ [x00; x00; x00; x00]) 7))
  = true /\
  IsCorruption (fst (ParseMagicAndLength (magic ++ [x00; x00; x00]) 7))
  = true.
Proof.
  split; [reflexivity |]. split; [| split].
  - apply (proj2 (ParseMagicAndLength_spec (consts := consts) eq_refl
                    (magic ++ [x0a; x00; x00; x00]) 7)).
    intros [H | [H | [H | H]]]; vm_compute in H; congruence.
  - apply (proj1 (ParseMagicAndLength_spec (consts := consts) eq_refl
                    (magic ++ [x00; x00; x00; x00]) 7)).
    right; right; left. reflexivity.
  - apply (proj1 (ParseMagicAndLength_spec (consts := consts) eq_refl
                    (magic ++ [x00; x00; x00]) 7)).
    left. vm_compute. congruence.
Defined.

Lemma lifecycle_witness :
  state_ fresh = kUninitialized /\
  state_ ready = kInitialized /\
  Init 0 0 ready = Fatal ShouldBeUninitialized /\
  ReadBlock fresh root = Fatal BadStateReadBlock /\
  SearchPosition (K := Z) 8 fresh 50 = Some (Fatal MustInitFirst).
Proof.
  pose proof (@lifecycle consts MemFile RawHeader ListFooter _ _ _)
    as (Hnew & Hfatal & Hinit & Honce & Hread & Hsearch).
  split; [apply Hnew |].
  split; [apply (proj1 (Hinit 0 0 fresh OK ready ready_is_initialized));
          reflexivity |].
  split; [apply (Honce 0 0 fresh ready ready_is_initialized) |].
  split; [apply Hread; vm_compute; congruence |].
  apply Hsearch. vm_compute. congruence.
Defined.

Lemma failed_Init_keeps_uninitialized_witness :
  exists r',
    Init 0 0 fresh_bad_header_magic = Return (Corruption "bad magic", r') /\
    state_ r' = kUninitialized /\
    forall hs' fs', exists st' r'', Init hs' fs' r' = Return (st', r'').
Proof.
  eexists. split; [vm_compute; reflexivity |].
  apply (@failed_Init_keeps_uninitialized consts MemFile RawHeader ListFooter
           _ _ _ 0 0 fresh_bad_header_magic _ (Corruption "bad magic")).
  - vm_compute. reflexivity.
  - discriminate.
Defined.

Lemma GetIndexRootBlock_first_match_witness :
  Init 0 0 fresh = Return (OK, ready) /\
  GetIndexRootBlock ready "idx.positional" = Return (Success root) /\
  exists msg,
    GetIndexRootBlock ready "idx.value" = Return (Failure (NotFound msg)).
Proof.
  split; [exact ready_is_initialized |]. split.
  - destruct (GetIndexRootBlock_first_match 0 0 fresh "idx.positional"
                ready_is_initialized) as (f & Hf & Hfirst & _).
    vm_compute in Hf. injection Hf as <-.
    apply (Hfirst []
             {| metadata := {| identifier := "idx.positional" |};
                root_block := {| pb_offset := 28; pb_size := 4 |} |} []).
    + reflexivity.
    + intros i [].
    + reflexivity.
  - destruct (GetIndexRootBlock_first_match 0 0 fresh "idx.value"
                ready_is_initialized) as (f & Hf & _ & Hnone & _).
    vm_compute in Hf. injection Hf as <-.
    apply Hnone. intros i [<- | []]. vm_compute. congruence.
Defined.

Lemma far_pointer_in_bounds :
  (offset far_pointer >? 0)
  && (wrap64 (offset far_pointer + size far_pointer) <? file_size_ ready)
  = true.
Proof.
  rewrite ready_size. vm_compute. reflexivity.
Qed.

(** C2 as first stated fails on two inputs.  On the damaged file the data
    block lies inside the file, and ReadBlock returns the Corruption of the
    read: neither a view nor an I/O error.  And [far_pointer] names two
    bytes from offset 2^64 - 1 on, none of which is in the 47-byte file,
    yet ReadBlock is not fatal. *)
Lemma ReadBlock_other_outcomes :
  (state_ patchy_ready = kInitialized /\
   offset data_block > 0 /\
   offset data_block + size data_block < file_size_ patchy_ready /\
   ReadBlock patchy_ready data_block
   = Return (Failure (Corruption "checksum mismatch"))) /\
  (state_ ready = kInitialized /\
   0 < offset far_pointer < 2 ^ 64 /\ 0 <= size far_pointer < 2 ^ 32 /\
   offset far_pointer + size far_pointer >= file_size_ ready /\
   ~ (exists f, ReadBlock ready far_pointer = Fatal f)).
Proof.
  split.
  - repeat split; vm_compute; reflexivity.
  - split; [exact ready_state |].
    split; [cbn; lia |]. split; [cbn; lia |].
    split; [rewrite ready_size; cbn; lia |].
    intros (f & Hf).
    pose proof (ReadBlock_cases ready far_pointer ready_state) as Hc.
    rewrite far_pointer_in_bounds in Hc. rewrite Hc in Hf.
    destruct (Read (file_ ready) (offset far_pointer) (size far_pointer))
      as [st s].
    destruct (negb (ok st)); [discriminate |].
    destruct (negb (Z.of_nat (length s) =? size far_pointer)); discriminate.
Qed.

Lemma ReadBlock_spec_witness :
  state_ ready = kInitialized /\
  0 <= file_size_ ready < 2 ^ 64 /\
  (offset data_block > 0 /\
   offset data_block + size data_block < file_size_ ready) /\
  ReadBlock ready data_block = Return (Success {| slice := [x00; x64] |}) /\
  ReadBlock ready no_pointer = Fatal BadOffset /\
  ReadBlock patchy_ready data_block
  = Return (Failure (Corruption "checksum mismatch")).
Proof.
  assert (Hsz : 0 <= file_size_ ready < 2 ^ 64)
    by (rewrite ready_size; split; [discriminate | reflexivity]).
  assert (Hin : offset data_block > 0 /\
                offset data_block + size data_block < file_size_ ready)
    by (rewrite ready_size; split; reflexivity).
  split; [exact ready_state |]. split; [exact Hsz |]. split; [exact Hin |].
  split; [| split].
  - apply (proj1 (ReadBlock_spec ready data_block ready_state Hsz
                    ltac:(discriminate)) Hin
             OK [x00; x64]); reflexivity.
  - apply (proj2 (ReadBlock_spec ready no_pointer ready_state Hsz
                    ltac:(discriminate))).
    left. reflexivity.
  - apply (proj1 (ReadBlock_spec patchy_ready data_block
                    ltac:(vm_compute; reflexivity)
                    ltac:(vm_compute; split; [discriminate | reflexivity])
                    ltac:(discriminate))
             ltac:(vm_compute; split; reflexivity)
             (Corruption "checksum mismatch") []);
      [reflexivity | discriminate].
Defined.

Lemma ReadBlock_check_wraps_witness :
  state_ ready = kInitialized /\
  0 < file_size_ ready < 2 ^ 64 /\
  exists ptr,
    0 < offset ptr < 2 ^ 64 /\ 0 < size ptr < 2 ^ 32 /\
    file_size_ ready <= offset ptr /\
    ~ (offset ptr + size ptr < file_size_ ready) /\
    exists res, ReadBlock ready ptr = Return res.
Proof.
  assert (Hsz : 0 < file_size_ ready < 2 ^ 64)
    by (rewrite ready_size; split; reflexivity).
  split; [exact ready_state |]. split; [exact Hsz |].
  exact (proj2 (ReadBlock_check_wraps ready ready_state) Hsz).
Defined.

Lemma root_is_internal : block_answers ready 50 root false leaf 0.
Proof.
  exists {| slice := [x00; x00; x18; x04] |}.
  eexists. repeat split; vm_compute; reflexivity.
Qed.

Lemma leaf_is_leaf (child : BlockPointer) (k : Z) :
  ~ block_answers ready 50 leaf false child k.
Proof.
  intros (data & blk & HR & HP & _ & HL).
  vm_compute in HR. injection HR as <-.
  vm_compute in HP. injection HP as <-.
  vm_compute in HL. discriminate.
Qed.

Lemma SearchDownward_reaches_leaf_witness :
  finite_depth ready 50 root 1 /\
  state_ ready = kInitialized /\
  GetIndexRootBlock ready kPositionalIndexIdentifier
  = Return (Success root) /\
  leaf_reached ready 50 root (data_block, 0) /\
  SearchPosition 2 ready 50 = Some (Return (Success (data_block, 0))).
Proof.
  assert (Hfd : finite_depth ready 50 root 1).
  { apply depth_step with (child := leaf) (k := 0).
    - exact root_is_internal.
    - apply depth_stop. exact leaf_is_leaf. }
  assert (Hroot : GetIndexRootBlock ready kPositionalIndexIdentifier
                  = Return (Success root)) by (vm_compute; reflexivity).
  split; [exact Hfd |]. split; [exact ready_state |].
  split; [exact Hroot |].
  pose proof (SearchDownward_reaches_leaf ready 50) as (Hdown & Hpos & _).
  split.
  - destruct (Hdown root 1%nat 2%nat Hfd (le_n 2)) as (out & Hrun & Hiff).
    vm_compute in Hrun. injection Hrun as <-.
    apply Hiff. reflexivity.
  - destruct (Hpos root 1%nat 2%nat ready_state Hroot Hfd (le_n 2))
      as (out & Hrun & Hiff).
    rewrite Hrun. f_equal. apply Hiff.
    apply reached_below with (child := leaf) (k := 0).
    + exact root_is_internal.
    + apply reached_here.
      exists {| slice := [x01; x00; x16; x02] |}.
      eexists. repeat split; vm_compute; reflexivity.
Defined.




Lemma failed_seek_leaves_not_seeked_witness :
  seeked_ (after_seek debug_build iterator 150) = false /\
  (exists msg it',
     SeekToOrdinal (build := debug_build) iterator 150
     = Return (NotFound msg, it') /\ seeked_ it' = false) /\
  GetCurrentOrdinal (after_seek debug_build iterator 150) = Fatal NotSeeked.
Proof.
  pose proof (@failed_seek_leaves_not_seeked MemFile RawHeader ListFooter _
                Cursor Decoder _ _ debug_build)
    as (Hfail & Hpast & Hfatal).
  assert (Hoff : seeked_ (after_seek debug_build iterator 150) = false).
  { apply (Hfail iterator 150
             (NotFound "trying to seek past highest ordinal in file")).
    - vm_compute. reflexivity.
    - discriminate. }
  split; [exact Hoff |]. split.
  - apply (Hpast iterator 150
             {| c_reader := ready; c_root := root; c_block := data_block |}
             {| slice := [x00; x64] |}
             {| d_raw := [x00; x64]; d_first := 0; d_count := 100;
                d_cur := 0 |});
      vm_compute; try reflexivity; congruence.
  - apply Hfatal. exact Hoff.
Defined.

(** ** The further properties at work *)

Lemma magic_has_eight_bytes :
  length (kMagicString (CFileConstants := consts)) = 8%nat.
Proof. reflexivity. Qed.

Lemma ParseMagicAndLength_out_parameter_witness :
  length (kMagicString (CFileConstants := consts)) = 8%nat /\
  snd (ParseMagicAndLength (x00 :: skipn 1 magic ++ [x0a; x00; x00; x00]) 7)
  = 7 /\
  snd (ParseMagicAndLength (magic ++ [x00; x00; x02; x00]) 7) = 131072.
Proof.
  split; [reflexivity |]. split.
  - apply (proj1 (ParseMagicAndLength_out_parameter (consts := consts)
                    eq_refl _ 7)).
    right. vm_compute. congruence.
  - apply (proj2 (ParseMagicAndLength_out_parameter (consts := consts)
                    eq_refl (magic ++ [x00; x00; x02; x00]) 7));
      reflexivity.
Defined.

Lemma ReadMagicAndLength_accepts_witness :
  length (kMagicString (CFileConstants := consts)) = 8%nat /\
  ReadMagicAndLength fresh 35 7 = (OK, 3) /\
  0 < 3 <= 65536 /\
  exists s, Read (file_ fresh) 35 12 = (OK, s) /\ ~ preamble_rejected s /\
            3 = le32 (skipn 8 s).
Proof.
  pose proof (ReadMagicAndLength_accepts (consts := consts) eq_refl fresh 35 7)
    as (_ & Hiff & Hbound).
  assert (Hrun : ReadMagicAndLength fresh 35 7 = (OK, 3))
    by (vm_compute; reflexivity).
  split; [reflexivity |]. split; [exact Hrun |].
  split; [exact (Hbound 3 Hrun) |].
  exact (proj1 (Hiff 3) Hrun).
Defined.

Lemma ReadAndParseHeader_ok_witness :
  length (kMagicString (CFileConstants := consts)) = 8%nat /\
  (exists n payload,
     ReadMagicAndLength fresh 0 7 = (OK, n) /\ 0 < n <= 65536 /\
     Read (file_ fresh) 12 n = (OK, payload)) /\
  ReadAndParseHeader 7 fresh_bad_header_magic
  = Return (Corruption "bad magic", fresh_bad_header_magic) /\
  ReadAndParseHeader 7 fresh
  = Return (OK, set_header fresh
                  [x01; x02; x03; x04; x05; x06; x07; x08; x09; x0a]).
Proof.
  pose proof (ReadAndParseHeader_ok (consts := consts) eq_refl 7 fresh)
    as (Hok & _ & Hrun).
  pose proof (ReadAndParseHeader_ok (consts := consts) eq_refl 7
                fresh_bad_header_magic) as (_ & Hbad & _).
  split; [reflexivity |]. split; [| split].
  - apply (Hok (set_header fresh
                  [x01; x02; x03; x04; x05; x06; x07; x08; x09; x0a])).
    vm_compute. reflexivity.
  - apply (Hbad (Corruption "bad magic") 7);
      [reflexivity | vm_compute; reflexivity | discriminate].
  - apply (proj2 (Hrun 10 OK
                    [x01; x02; x03; x04; x05; x06; x07; x08; x09; x0a]
                    eq_refl ltac:(vm_compute; reflexivity)
                    ltac:(vm_compute; reflexivity))
             eq_refl eq_refl true).
    reflexivity.
Defined.

Lemma Init_ignores_uninitialised_locals_witness :
  length (kMagicString (CFileConstants := consts)) = 8%nat /\
  Init 5 9 fresh = Init 0 0 fresh /\
  Init 5 9 fresh_bad_footer_length = Init 0 0 fresh_bad_footer_length.
Proof.
  split; [reflexivity |]. split.
  - apply (proj2 (proj2 (Init_ignores_uninitialised_locals 5 0 9 0 fresh
                           magic_has_eight_bytes))
             (magic ++ [x03; x00; x00; x00])); reflexivity.
  - apply (proj2 (proj2 (Init_ignores_uninitialised_locals 5 0 9 0
                           fresh_bad_footer_length magic_has_eight_bytes))
             (magic ++ [x00; x00; x00; x00])); reflexivity.
Defined.

Lemma Init_short_file_witness :
  state_ fresh_short = kUninitialized /\ file_size_ fresh_short <= 24 /\
  (exists r1, ReadAndParseHeader 0 fresh_short = Return (OK, r1)) /\
  Init 0 0 fresh_short = Fatal FileTooShort.
Proof.
  assert (Hsz : file_size_ fresh_short <= 24) by (vm_compute; congruence).
  split; [reflexivity |]. split; [exact Hsz |].
  split; [eexists; vm_compute; reflexivity |].
  apply (proj2 (Init_short_file 0 0 fresh_short eq_refl Hsz)
           (set_header fresh_short [x2a])).
  vm_compute. reflexivity.
Defined.

Lemma Init_ok_invariant_witness :
  Init 0 0 fresh = Return (OK, ready) /\
  file_ ready = file_ fresh /\ file_size_ ready = file_size_ fresh /\
  file_size_ ready > 24 /\ header_ ready <> None /\ footer_ ready <> None.
Proof.
  split; [exact ready_is_initialized |].
  exact (Init_ok_invariant 0 0 fresh ready_is_initialized).
Defined.

Lemma ReadAndParseFooter_spec_witness :
  length (kMagicString (CFileConstants := consts)) = 8%nat /\
  state_ fresh = kUninitialized /\ 24 < file_size_ fresh < 2 ^ 64 /\
  ReadMagicAndLength fresh (file_size_ fresh - 12) 0 = (OK, 3) /\
  ReadAndParseFooter 0 fresh
  = Return (OK, set_footer fresh
                  [{| metadata := {| identifier := "idx.positional" |};
                      root_block := {| pb_offset := 28; pb_size := 4 |} |}])
  /\
  ReadMagicAndLength fresh_long_footer_strict
    (file_size_ fresh_long_footer_strict - 12) 0 = (OK, 100) /\
  ReadAndParseFooter 0 fresh_long_footer_strict
  = Return (Corruption "checksum mismatch",
            set_footer fresh_long_footer_strict New).
Proof.
  assert (Hsz : 24 < file_size_ fresh < 2 ^ 64) by (split; reflexivity).
  assert (Hsz' : 24 < file_size_ fresh_long_footer_strict < 2 ^ 64)
    by (split; reflexivity).
  assert (Hframe : ReadMagicAndLength fresh (file_size_ fresh - 12) 0
                   = (OK, 3)) by (vm_compute; reflexivity).
  assert (Hframe' : ReadMagicAndLength fresh_long_footer_strict
                      (file_size_ fresh_long_footer_strict - 12) 0
                    = (OK, 100))
    by (vm_compute; reflexivity).
  split; [reflexivity |]. split; [reflexivity |]. split; [exact Hsz |].
  split; [exact Hframe |]. split; [| split; [exact Hframe' |]].
  - destruct (ReadAndParseFooter_spec 0 fresh magic_has_eight_bytes
                eq_refl Hsz Hframe)
      as (_ & off & Hfit & _ & Hrun).
    destruct (Hfit ltac:(vm_compute; congruence)) as (-> & _ & _).
    destruct (Hrun OK [x01; x1c; x04] ltac:(vm_compute; reflexivity))
      as (_ & Hok).
    apply (Hok eq_refl eq_refl true). vm_compute. reflexivity.
  - destruct (ReadAndParseFooter_spec 0 fresh_long_footer_strict
                magic_has_eight_bytes eq_refl Hsz' Hframe')
      as (_ & off & _ & Hbig & Hrun).
    destruct (Hbig ltac:(vm_compute; reflexivity)) as (-> & _).
    apply (proj1 (Hrun (Corruption "checksum mismatch") []
                    ltac:(vm_compute; reflexivity))).
    discriminate.
Defined.

Lemma GetIndexRootBlock_sound_witness :
  Init 0 0 fresh = Return (OK, ready) /\
  (exists res, GetIndexRootBlock ready "idx.value" = Return res) /\
  exists info,
    In info (btrees (M := ListFooter)
               [{| metadata := {| identifier := "idx.positional" |};
                   root_block := {| pb_offset := 28; pb_size := 4 |} |}]) /\
    identifier (metadata info) = "idx.positional" /\
    root = BlockPointer_of_pb (root_block info).
Proof.
  split; [exact ready_is_initialized |]. split.
  - destruct (GetIndexRootBlock_sound 0 0 fresh "idx.value"
                ready_is_initialized) as (f & _ & Hres & _).
    exact Hres.
  - destruct (GetIndexRootBlock_sound 0 0 fresh "idx.positional"
                ready_is_initialized) as (f & Hf & _ & Hsound & _).
    vm_compute in Hf. injection Hf as <-.
    apply Hsound. vm_compute. reflexivity.
Defined.

Lemma no_positional_index_witness :
  Init 0 0 (NewCFileReader no_index_file 47)
  = Return (OK, no_index_ready) /\
  SearchPosition (K := Z) 0 no_index_ready 50
  = Some (Return (Failure (NotFound "no such index"))) /\
  NewIteratorByPos (C := Cursor) (D := Decoder) no_index_ready
  = Return (Failure (NotFound "no such index")).
Proof.
  assert (Hinit : Init 0 0 (NewCFileReader no_index_file 47)
                  = Return (OK, no_index_ready))
    by (vm_compute; reflexivity).
  split; [exact Hinit |].
  destruct (no_positional_index (K := Z) 0 0 _ cursor decoder Hinit
              (f := [{| metadata := {| identifier := "idx.other" |};
                        root_block := {| pb_offset := 28; pb_size := 4 |} |}])
              ltac:(vm_compute; reflexivity))
    as (Hsearch & Hnew).
  - intros info [<- | []]. vm_compute. congruence.
  - split; [apply Hsearch | exact Hnew].
Defined.

Lemma SearchDownward_returns_only_finite_witness :
  SearchDownward 5 ready 50 root
  = Some (Return (Success (data_block, 0))) /\
  exists n, (n < 5)%nat /\ finite_depth ready 50 root n.
Proof.
  assert (Hrun : SearchDownward 5 ready 50 root
                 = Some (Return (Success (data_block, 0))))
    by (vm_compute; reflexivity).
  split; [exact Hrun |].
  exact (SearchDownward_returns_only_finite ready 50 5 root Hrun).
Defined.

Lemma loop_root_answers_itself : block_answers loop_ready 50 root false root 0.
Proof.
  exists {| slice := [x00; x00; x1c; x04] |}.
  eexists. repeat split; vm_compute; reflexivity.
Qed.

Lemma SearchDownward_self_loop_witness :
  block_answers loop_ready 50 root false root 0 /\
  SearchDownward 1000 loop_ready 50 root = None.
Proof.
  split; [exact loop_root_answers_itself |].
  exact (SearchDownward_self_loop loop_root_answers_itself 1000).
Defined.

Lemma stray_root_answers :
  block_answers stray_root_ready 50 root false {| offset := 0; size := 4 |} 0.
Proof.
  exists {| slice := [x00; x00; x00; x04] |}.
  eexists. repeat split; vm_compute; reflexivity.
Qed.

Lemma SearchDownward_stray_child_witness :
  state_ stray_root_ready = kInitialized /\
  block_answers stray_root_ready 50 root false {| offset := 0; size := 4 |} 0
  /\
  SearchDownward 2 stray_root_ready 50 root = Some (Fatal BadOffset).
Proof.
  assert (Hs : state_ stray_root_ready = kInitialized)
    by (vm_compute; reflexivity).
  split; [exact Hs |]. split; [exact stray_root_answers |].
  apply (SearchDownward_stray_child 0 Hs stray_root_answers).
  left. reflexivity.
Defined.

Lemma seeked_iterator_in_use :
  in_use (build := debug_build) ready root (after_seek debug_build iterator 50).
Proof.
  apply in_use_seek with (it := iterator) (ord := 50) (st := OK).
  - apply in_use_new.
  - vm_compute. reflexivity.
Qed.

Lemma iterator_invariant_witness :
  in_use (build := debug_build) ready root (after_seek debug_build iterator 50)
  /\
  reader_ (after_seek debug_build iterator 50) = ready /\
  (exists d, dblk_ (after_seek debug_build iterator 50) = Some d) /\
  (GetCurrentOrdinal (after_seek debug_build iterator 50) = Fatal NotSeeked \/
   exists n, GetCurrentOrdinal (after_seek debug_build iterator 50)
             = Return n).
Proof.
  destruct (iterator_invariant seeked_iterator_in_use) as (Hr & Hs & Hget).
  split; [exact seeked_iterator_in_use |]. split; [exact Hr |].
  split; [| exact Hget].
  destruct (Hs ltac:(vm_compute; reflexivity)) as (d & Hd & _). eauto.
Defined.

Lemma successful_seek_within_block_witness :
  SeekToOrdinal (build := debug_build) iterator 99
  = Return (OK, after_seek debug_build iterator 99) /\
  exists data (d : Decoder),
    ReadBlock (reader_ iterator)
      (GetCurrentBlockPointer (idx_iter_ (after_seek debug_build iterator 99)))
    = Return (Success data) /\
    ParseHeader (NewIntBlockDecoder (slice data)) = (OK, d) /\
    99 < block_end d /\
    (0 <= ordinal_pos d + Count d -> 99 < ordinal_pos d + Count d) /\
    (NDEBUG (Build := debug_build) = false -> ordinal_pos d <= 99).
Proof.
  assert (Hseek : SeekToOrdinal (build := debug_build) iterator 99
                  = Return (OK, after_seek debug_build iterator 99))
    by (vm_compute; reflexivity).
  split; [exact Hseek |].
  exact (successful_seek_within_block (build := debug_build) iterator 99
           Hseek).
Defined.

Lemma SeekToOrdinal_index_failures_witness :
  SeekAtOrBefore (idx_iter_ stray_leaf_iterator) 50
  = (OK, {| c_reader := stray_leaf_ready; c_root := root;
            c_block := {| offset := 0; size := 2 |} |}) /\
  state_ (reader_ stray_leaf_iterator) = kInitialized /\
  SeekToOrdinal (build := debug_build) stray_leaf_iterator 50
  = Fatal BadOffset.
Proof.
  assert (Hcur : SeekAtOrBefore (idx_iter_ stray_leaf_iterator) 50
                 = (OK, {| c_reader := stray_leaf_ready; c_root := root;
                           c_block := {| offset := 0; size := 2 |} |}))
    by (vm_compute; reflexivity).
  assert (Hs : state_ (reader_ stray_leaf_iterator) = kInitialized)
    by (vm_compute; reflexivity).
  split; [exact Hcur |]. split; [exact Hs |].
  apply (proj2 (SeekToOrdinal_index_failures (build := debug_build)
                  stray_leaf_iterator 50 Hcur) eq_refl Hs).
  left. reflexivity.
Defined.

Lemma NewIteratorByPos_fresh_witness :
  footer_ ready
  = Some [{| metadata := {| identifier := "idx.positional" |};
             root_block := {| pb_offset := 28; pb_size := 4 |} |}] /\
  exists it : Iterator,
    NewIteratorByPos ready = Return (Success it) /\
    in_use (build := debug_build) ready root it /\
    seeked_ it = false /\
    GetCurrentOrdinal it = Fatal NotSeeked.
Proof.
  assert (Hf : footer_ ready
               = Some [{| metadata := {| identifier := "idx.positional" |};
                          root_block := {| pb_offset := 28; pb_size := 4 |} |}])
    by (vm_compute; reflexivity).
  split; [exact Hf |].
  destruct (NewIteratorByPos_fresh (consts := consts)
              (footer_if := list_footer) (C := Cursor) (D := Decoder)
              (build := debug_build) ready []
              [] {| metadata := {| identifier := "idx.positional" |};
                    root_block := {| pb_offset := 28; pb_size := 4 |} |}
              Hf ltac:(reflexivity) ltac:(intros i []) ltac:(reflexivity))
    as (it & Hnew & Huse & _ & _ & Hoff & Hget).
  exists it. repeat split; assumption.
Defined.

End OnTheSmallFile.
